(** * YetAnotherKeyboxChecker: a shallow embedding of [main.py]

  The script downloads the attestation revocation list, scans every
  [.xml] file next to it for PEM certificates, looks the serial numbers up
  in the list and offers to delete the files that hold a revoked
  certificate.

  Python [str] values are modelled as [list ascii]; a character is a code
  point below 256.  The revocation table (a [dict]) is a [gmap] keyed by
  such strings.  The three third-party libraries are not part of the
  script: the X.509 parser is a section variable, an HTTP exchange is
  given by its observable outcome, and console output is a list of
  events. *)

From Stdlib Require Import ZArith NArith Ascii String.
From stdpp Require Import base list strings gmap.

Local Open Scope nat_scope.
Set Warnings "-register-all".

(** ** Strings *)

Abbreviation str := (list ascii).

Definition lit (s : string) : str := list_ascii_of_string s.

Module Str.

Definition code (c : ascii) : nat := nat_of_ascii c.

Definition between (lo hi : nat) (c : ascii) : bool :=
  (lo <=? code c) && (code c <=? hi).

(** [str.lower] on one code point below 256: the ASCII capitals and the
    Latin-1 capitals (all of 0xC0..0xDE but the multiplication sign). *)
Definition lower_char (c : ascii) : ascii :=
  if between 65 90 c || (between 192 222 c && negb (code c =? 215))
  then ascii_of_nat (code c + 32)
  else c.

Definition lower (s : str) : str := map lower_char s.

(** [str.isspace] on one code point below 256. *)
Definition isspace (c : ascii) : bool :=
  between 9 13 c || between 28 32 c || (code c =? 133) || (code c =? 160).

Definition eqb_char (a b : ascii) : bool := Ascii.eqb a b.

Fixpoint mem_char (c : ascii) (chars : str) : bool :=
  match chars with
  | [] => false
  | x :: rest => eqb_char c x || mem_char c rest
  end.

Fixpoint drop_while (p : ascii -> bool) (s : str) : str :=
  match s with
  | [] => []
  | c :: rest => if p c then drop_while p rest else s
  end.

(** [s.lstrip(chars)]: drop the leading characters that occur in [chars]. *)
Definition lstrip (chars : str) (s : str) : str :=
  drop_while (fun c => mem_char c chars) s.

(** [s.strip()]: drop white space at both ends. *)
Definition strip (s : str) : str :=
  rev (drop_while isspace (rev (drop_while isspace s))).

Fixpoint startswith (p s : str) : bool :=
  match p, s with
  | [], _ => true
  | _ :: _, [] => false
  | a :: p', b :: s' => eqb_char a b && startswith p' s'
  end.

(** [s.endswith(p)] *)
Definition endswith (p s : str) : bool := startswith (rev p) (rev s).

Fixpoint eqb (a b : str) : bool :=
  match a, b with
  | [], [] => true
  | x :: a', y :: b' => eqb_char x y && eqb a' b'
  | _, _ => false
  end.

(** [s.split(sep)] for a non-empty separator: the pieces between the
    occurrences of [sep], found left to right without overlap.  [skip]
    counts the characters of a separator still to be passed, [cur] is the
    current piece, reversed. *)
Fixpoint split_from (sep : str) (skip : nat) (cur : str) (s : str)
  : list str :=
  match s with
  | [] => [rev cur]
  | c :: rest =>
      match skip with
      | S k => split_from sep k cur rest
      | O =>
          if startswith sep s
          then rev cur :: split_from sep (length sep - 1) [] rest
          else split_from sep 0 (c :: cur) rest
      end
  end.

Definition split (sep s : str) : list str := split_from sep 0 [] s.

(** [sep] occurs in [s] at index [i]. *)
Definition occurs_at (sep s : str) (i : nat) : Prop :=
  startswith sep (drop i s) = true.

End Str.

(** ** Rendering an integer in hexadecimal: [format(n, "x")] *)

Module Hex.

Definition digits : str := lit "0123456789abcdef".

Definition digit (d : N) : ascii := nth (N.to_nat d) digits "0"%char.

(** Most significant digit first; [fuel] bounds the number of digits,
    which is at most one more than the binary logarithm. *)
Fixpoint of_N_from (fuel : nat) (n : N) (acc : str) : str :=
  match fuel with
  | O => acc
  | S fuel' =>
      if (n =? 0)%N then acc
      else of_N_from fuel' (n / 16)%N (digit (n mod 16)%N :: acc)
  end.

Definition of_N (n : N) : str :=
  if (n =? 0)%N then lit "0"
  else of_N_from (S (N.to_nat (N.log2 n))) n [].

(** [format(z, "x")]: a minus sign, then the magnitude. *)
Definition format_x (z : Z) : str :=
  match z with
  | Z0 => lit "0"
  | Zpos p => of_N (Npos p)
  | Zneg p => "-"%char :: of_N (Npos p)
  end.

Definition is_lower_hex (c : ascii) : bool :=
  Str.between 48 57 c || Str.between 97 102 c.

End Hex.

(** ** The regular expressions of the script

    The three patterns ([<!--.*?-->], the certificate pattern and
    [[^a-f0-9]]) are sequences of literals, lazy [.*?] (under [re.DOTALL],
    so any character) and one character class.  [match_here] is the
    backtracking match at the start of the text: [.*?] first tries to take
    nothing and takes one more character each time the rest fails. *)

Module Re.

Inductive atom :=
| Lit (l : str)
| AnyLazy
| Class (p : ascii -> bool).

Definition regex := list atom.

(** Length of the match of [re] at the start of the text, if any. *)
Fixpoint match_here (re : regex) : str -> option nat :=
  match re with
  | [] => fun _ => Some 0
  | Lit l :: re' => fun s =>
      if Str.startswith l s
      then (fun n => length l + n) <$> match_here re' (drop (length l) s)
      else None
  | Class p :: re' => fun s =>
      match s with
      | c :: s' => if p c then S <$> match_here re' s' else None
      | [] => None
      end
  | AnyLazy :: re' =>
      fix lazy (s : str) : option nat :=
        match match_here re' s with
        | Some n => Some n
        | None =>
            match s with
            | [] => None
            | _ :: s' => S <$> lazy s'
            end
        end
  end.

(** [re.findall(re, s)] for a pattern with one group around everything
    that matches no empty string: the matches, leftmost first, the scan
    resuming after each match.  [skip] counts the characters of the last
    match still to be passed. *)
Fixpoint findall_from (re : regex) (skip : nat) (s : str) : list str :=
  match s with
  | [] => []
  | c :: rest =>
      match skip with
      | S k => findall_from re k rest
      | O =>
          match match_here re s with
          | Some (S k) => take (S k) s :: findall_from re k rest
          | Some O => [] :: findall_from re 0 rest
          | None => findall_from re 0 rest
          end
      end
  end.

Definition findall (re : regex) (s : str) : list str := findall_from re 0 s.

(** [re.sub(re, "", s)]: every match is removed. *)
Fixpoint sub_from (re : regex) (skip : nat) (s : str) : str :=
  match s with
  | [] => []
  | c :: rest =>
      match skip with
      | S k => sub_from re k rest
      | O =>
          match match_here re s with
          | Some (S k) => sub_from re k rest
          | _ => c :: sub_from re 0 rest
          end
      end
  end.

Definition sub_empty (re : regex) (s : str) : str := sub_from re 0 s.

End Re.

(** The patterns and markers of [main]. *)

Definition CHAIN_END : str := lit "</CertificateChain>".
Definition BEGIN_CERT : str := lit "-----BEGIN CERTIFICATE".
Definition END_CERT : str := lit "-----END CERTIFICATE".
Definition DASHES : str := lit "-----".

(** [<!--.*?-->] *)
Definition COMMENT_RE : Re.regex :=
  [Re.Lit (lit "<!--"); Re.AnyLazy; Re.Lit (lit "-->")].

(** [(-----BEGIN CERTIFICATE.*?-----END CERTIFICATE.*?-----)] *)
Definition CERT_RE : Re.regex :=
  [Re.Lit BEGIN_CERT; Re.AnyLazy; Re.Lit END_CERT; Re.AnyLazy; Re.Lit DASHES].

(** [[^a-f0-9]] *)
Definition NON_HEX_RE : Re.regex :=
  [Re.Class (fun c => negb (Hex.is_lower_hex c))].

(** Lines 83 to 91 of [main]: cut at the chain terminator, remove the
    comments, collect the certificate blocks. *)
Definition truncate (raw : str) : str := hd [] (Str.split CHAIN_END raw).

Definition strip_comments (content : str) : str :=
  Re.sub_empty COMMENT_RE content.

Definition extract_certificates (raw : str) : list str :=
  Re.findall CERT_RE (strip_comments (truncate raw)).

(** ** The revocation list *)

(** A decoded JSON value.  An object is a [dict]: its items in insertion
    order, the keys distinct. *)
Inductive JValue :=
| JNull
| JBool (b : bool)
| JNumber (z : Z)
| JString (s : str)
| JArray (l : list JValue)
| JObject (items : list (str * JValue)).

(** [d.get(key, default)] on the items of a [dict]. *)
Definition dict_get (key : str) (default : JValue)
  (items : list (str * JValue)) : JValue :=
  match find (fun kv => Str.eqb kv.1 key) items with
  | Some kv => kv.2
  | None => default
  end.

(** [{"status": ..., "reason": ...}], the value stored for a serial. *)
Record RevocationEntry := {
  status : JValue;
  reason : JValue
}.

(** [value == "REVOKED"]: a string equal to the literal, nothing else. *)
Definition is_string (s : str) (v : JValue) : bool :=
  match v with
  | JString t => Str.eqb t s
  | _ => false
  end.

Definition REVOKED : str := lit "REVOKED".

(** The exceptions [main] does not catch: [OSError] from [open] or [read]
    on a file of the directory (lines 80 to 83), [EOFError] from [input]
    at the end of the input (line 152). *)
Inductive Uncaught :=
| OpenFailed (xml_file : str)
| EndOfInput.

(** Console output: one constructor per [print] of the script, or per run
    of [print]s that always come together (colours and the text of caught
    exceptions left out), and one per traceback of the interpreter. *)
Inductive Event :=
| EDownloading
| EFetchError
| ECertificateError
| ENoXmlFiles
| EProcessing (xml_file : str)
| ENoCertificates
| ECertificate (i : nat) (hex_serial issuer_serial : str)
| EStatus (status reason : JValue)
| EFoundMatches (file_matches : nat) (xml_file : str)
| EFinalResults (total : nat) (valid : Z) (revoked : nat)
| EMatchingHeader
| EMatchingFile (file_name : str)
| EMatch (cert_number : nat) (status reason : JValue)
| EDeleteHeader
| EFileToDelete (file_name : str)
| ETotalToDelete (n : nat)
| EPrompt
| EDeleting
| EDeleted (file_name : str)
| EDeleteError (file_name : str)
| ETotalDeleted (n : nat)
| ECancelled
| EInstallHint (package : str)
| ETraceback (module : str)
| EUncaught (e : Uncaught).

(** What [requests.get] followed by [raise_for_status] and [json] can
    observe: the request raises, or a response arrives with a status code
    and a body that decodes to a JSON value or does not. *)
Inductive Reply :=
| RequestFailed
| Response (status_code : nat) (json : option JValue).

(** [Response.raise_for_status] raises for the client and server error
    codes, 400 to 599. *)
Definition raise_for_status (status_code : nat) : bool :=
  (400 <=? status_code) && (status_code <? 600).

(** The loop of lines 17 to 21; [None] when an [info] is not an object
    ([info.get] raises). *)
Fixpoint add_entries (items : list (str * JValue))
  (entries : gmap str RevocationEntry) : option (gmap str RevocationEntry) :=
  match items with
  | [] => Some entries
  | (serial, JObject info) :: rest =>
      add_entries rest
        (<[Str.lower serial :=
             {| status :=
                  dict_get (lit "status") (JString (lit "UNKNOWN")) info;
                reason :=
                  dict_get (lit "reason") (JString (lit "UNSPECIFIED")) info
             |}]>
           entries)
  | (_, _) :: _ => None
  end.

(** The [try] body of [get_online_serial_list]; [None] stands for any
    raised exception. *)
Definition download_entries (reply : Reply)
  : option (gmap str RevocationEntry) :=
  match reply with
  | RequestFailed => None
  | Response status_code json =>
      if raise_for_status status_code then None
      else
        match json with
        | Some (JObject data) =>
            match dict_get (lit "entries") (JObject []) data with
            | JObject items => add_entries items ∅
            | _ => None
            end
        | _ => None
        end
  end.

Definition get_online_serial_list (reply : Reply)
  : gmap str RevocationEntry * list Event :=
  match download_entries reply with
  | Some entries => (entries, [])
  | None => (∅, [EFetchError])
  end.

(** ** Certificates *)

Definition ObjectIdentifier := list nat.

(** [x509.NameOID.SERIAL_NUMBER], 2.5.4.5 *)
Definition SERIAL_NUMBER : ObjectIdentifier := [2; 5; 4; 5].

Record NameAttribute := {
  oid : ObjectIdentifier;
  value : str
}.

Record Certificate := {
  serial_number : Z;
  issuer : list NameAttribute
}.

(** The four values [process_certificate] returns. *)
Record Evaluation := {
  hex_serial : option str;
  issuer_serial : option str;
  found : bool;
  status_info : option RevocationEntry
}.

(** Lines 32 and 33. *)
Definition subject_serial_hex (cert : Certificate) : str :=
  Str.lstrip (lit "0") (Str.lower (Hex.format_x (serial_number cert))).

(** Lines 35 to 39: the first serial-number attribute of the issuer name. *)
Fixpoint issuer_serial_of (attrs : list NameAttribute) : option str :=
  match attrs with
  | [] => None
  | attr :: rest =>
      if decide (oid attr = SERIAL_NUMBER)
      then Some (Re.sub_empty NON_HEX_RE (Str.lower (value attr)))
      else issuer_serial_of rest
  end.

(** A computation that records the keys it looks up in the table. *)
Definition Traced (A : Type) : Type := A * list str.

Definition ret {A} (a : A) : Traced A := (a, []).

Definition bind {A B} (m : Traced A) (k : A -> Traced B) : Traced B :=
  let '(a, q1) := m in
  let '(b, q2) := k a in
  (b, q1 ++ q2).

Definition query (online_serials : gmap str RevocationEntry) (key : str)
  : Traced (option RevocationEntry) :=
  (online_serials !! key, [key]).

(** Truth value of a string: non-empty. *)
Definition nonempty (s : str) : bool :=
  match s with [] => false | _ :: _ => true end.

(** Lines 41 to 45. *)
Definition lookup_status (hex_serial : str) (issuer_serial : option str)
  (online_serials : gmap str RevocationEntry)
  : Traced (option RevocationEntry) :=
  bind (query online_serials hex_serial) (fun hit =>
    match hit with
    | Some info => ret (Some info)
    | None =>
        match issuer_serial with
        | Some key =>
            if nonempty key then query online_serials key else ret None
        | None => ret None
        end
    end).

(** The [try] body of [process_certificate] once the block is parsed. *)
Definition evaluate (cert : Certificate)
  (online_serials : gmap str RevocationEntry) : Evaluation :=
  let hex := subject_serial_hex cert in
  let iss := issuer_serial_of (issuer cert) in
  let info := (lookup_status hex iss online_serials).1 in
  {| hex_serial := Some hex;
     issuer_serial := iss;
     found := bool_decide (is_Some info);
     status_info := info |}.

Definition unparsed : Evaluation :=
  {| hex_serial := None; issuer_serial := None;
     found := false; status_info := None |}.

(** ** The run *)

(** An item of [files_with_matches[xml_file]]. *)
Record Match := {
  match_cert_number : nat;
  match_hex_serial : option str;
  match_issuer_serial : option str;
  match_status : JValue;
  match_reason : JValue
}.

(** The accumulators of [main], the console and the files removed. *)
Record State := {
  found_count : nat;
  total_count : nat;
  files_with_matches : list (str * list Match);
  files_to_delete : list str;
  console : list Event;
  removed : list str
}.

Definition initial : State :=
  {| found_count := 0; total_count := 0; files_with_matches := [];
     files_to_delete := []; console := []; removed := [] |}.

Definition print (evs : list Event) (st : State) : State :=
  {| found_count := found_count st; total_count := total_count st;
     files_with_matches := files_with_matches st;
     files_to_delete := files_to_delete st;
     console := console st ++ evs; removed := removed st |}.

(** [files_with_matches[xml_file].append(m)] on a [defaultdict(list)]. *)
Fixpoint defaultdict_append (xml_file : str) (m : Match)
  (d : list (str * list Match)) : list (str * list Match) :=
  match d with
  | [] => [(xml_file, [m])]
  | (k, ms) :: rest =>
      if decide (k = xml_file) then (k, ms ++ [m]) :: rest
      else (k, ms) :: defaultdict_append xml_file m rest
  end.

(** Lines 114 to 124. *)
Definition count_revoked (xml_file : str) (m : Match) (st : State) : State :=
  {| found_count := found_count st + 1; total_count := total_count st;
     files_with_matches :=
       defaultdict_append xml_file m (files_with_matches st);
     files_to_delete := files_to_delete st;
     console := console st; removed := removed st |}.

(** [x or 'N/A'] for a string that may be [None]. *)
Definition or_na (x : option str) : str :=
  match x with
  | Some (c :: s) => c :: s
  | _ => lit "N/A"
  end.

Section Run.

(** [x509.load_pem_x509_certificate]; [None] when it raises. *)
Variable load_pem_x509_certificate : str -> option Certificate.

(** What [os.remove] does to a file of the directory: [true] when it
    succeeds. *)
Variable os_remove : str -> bool.

Definition process_certificate (cert_pem : str)
  (online_serials : gmap str RevocationEntry) : Evaluation * list Event :=
  match load_pem_x509_certificate cert_pem with
  | Some cert => (evaluate cert online_serials, [])
  | None => (unparsed, [ECertificateError])
  end.

(** One turn of the loop of lines 97 to 124; [file_matches] is carried
    along with the state.  An entry of the table always holds its two
    keys, so [status_info] is true as soon as it is not [None]. *)
Definition cert_step (xml_file : str)
  (online_serials : gmap str RevocationEntry)
  (acc : State * nat) (item : nat * str) : State * nat :=
  let '(st, file_matches) := acc in
  let '(i, cert) := item in
  let cert := Str.strip cert in
  let '(ev, errors) := process_certificate cert online_serials in
  let st :=
    print (errors ++
           [ECertificate i (or_na (hex_serial ev)) (or_na (issuer_serial ev))])
      st in
  match found ev, status_info ev with
  | true, Some info =>
      let st := print [EStatus (status info) (reason info)] st in
      if is_string REVOKED (status info)
      then (count_revoked xml_file
              {| match_cert_number := i;
                 match_hex_serial := hex_serial ev;
                 match_issuer_serial := issuer_serial ev;
                 match_status := status info;
                 match_reason := reason info |} st,
            file_matches + 1)
      else (st, file_matches)
  | _, _ => (st, file_matches)
  end.

(** [enumerate(certs, 1)] *)
Definition enumerate1 (certs : list str) : list (nat * str) :=
  zip (seq 1 (length certs)) certs.

Definition begin_file (xml_file : str) (st : State) : State :=
  {| found_count := found_count st; total_count := total_count st + 1;
     files_with_matches := files_with_matches st;
     files_to_delete := files_to_delete st;
     console := console st ++ [EProcessing xml_file]; removed := removed st |}.

Definition mark_for_deletion (xml_file : str) (st : State) : State :=
  {| found_count := found_count st; total_count := total_count st;
     files_with_matches := files_with_matches st;
     files_to_delete := files_to_delete st ++ [xml_file];
     console := console st; removed := removed st |}.

(** One turn of the loop of lines 76 to 128 on a file and its text. *)
Definition process_file (online_serials : gmap str RevocationEntry)
  (st : State) (file : str * str) : State :=
  let '(xml_file, text) := file in
  let st := begin_file xml_file st in
  let certs := extract_certificates text in
  match certs with
  | [] => print [ENoCertificates] st
  | _ :: _ =>
      let '(st, file_matches) :=
        foldl (cert_step xml_file online_serials) (st, 0) (enumerate1 certs) in
      match file_matches with
      | O => st
      | S _ =>
          mark_for_deletion xml_file
            (print [EFoundMatches file_matches xml_file] st)
      end
  end.

(** Lines 130 to 144. *)
Definition report (st : State) : State :=
  let st :=
    print [EFinalResults (total_count st)
             (Z.of_nat (total_count st) - Z.of_nat (found_count st))
             (found_count st)] st in
  match files_with_matches st with
  | [] => st
  | _ :: _ =>
      print
        (EMatchingHeader ::
         flat_map
           (fun fm : str * list Match =>
              EMatchingFile fm.1 ::
              map (fun m => EMatch (match_cert_number m) (match_status m)
                              (match_reason m)) fm.2)
           (files_with_matches st))
        st
  end.

(** One turn of the loop of lines 163 to 170; the counter is carried
    along with the state. *)
Definition delete_step (acc : State * nat) (file_name : str) : State * nat :=
  let '(st, deleted_count) := acc in
  if os_remove file_name
  then ({| found_count := found_count st; total_count := total_count st;
           files_with_matches := files_with_matches st;
           files_to_delete := files_to_delete st;
           console := console st ++ [EDeleted file_name];
           removed := removed st ++ [file_name] |},
        deleted_count + 1)
  else (print [EDeleteError file_name] st, deleted_count).

(** [confirm in ["", "y", "yes"]] *)
Definition affirmative (confirm : str) : bool :=
  Str.eqb confirm (lit "") || Str.eqb confirm (lit "y")
  || Str.eqb confirm (lit "yes").

(** Lines 146 to 175; [answer] is the line [input] returns. *)
Definition confirm_and_delete (answer : str) (st : State) : State :=
  match files_to_delete st with
  | [] => st
  | _ :: _ =>
      let st :=
        print (EDeleteHeader :: map EFileToDelete (files_to_delete st) ++
               [ETotalToDelete (length (files_to_delete st)); EPrompt]) st in
      let confirm := Str.lower (Str.strip answer) in
      if affirmative confirm
      then
        let '(st, deleted_count) :=
          foldl delete_step (print [EDeleting] st, 0) (files_to_delete st) in
        print [ETotalDeleted deleted_count] st
      else print [ECancelled] st
  end.

Definition is_xml (f : str) : bool := Str.endswith (lit ".xml") (Str.lower f).

(** [main] when every file can be read and a line is typed at the prompt
    (the exceptions come with [call_main] below): [reply] is the outcome
    of the download, [directory] the files of the script's directory with
    their text as [read] decodes it, in [os.listdir] order, [answer] the
    line typed at the prompt. *)
Definition main (reply : Reply) (directory : list (str * str))
  (answer : str) : State :=
  let st := print [EDownloading] initial in
  let '(online_serials, errors) := get_online_serial_list reply in
  let st := print errors st in
  let xml_files := filter (fun file => is_xml file.1) directory in
  match xml_files with
  | [] => print [ENoXmlFiles] st
  | _ :: _ =>
      let st := foldl (process_file online_serials) st xml_files in
      confirm_and_delete answer (report st)
  end.

(** *** The exceptions [main] lets through *)

(** How a call ends: it returns, or an exception leaves it; [st] is the
    state reached by then. *)
Inductive Ending :=
| Returned (st : State)
| Raised (e : Uncaught) (st : State).

(** The loop of lines 76 to 128 on files some of which cannot be read
    ([None]).  The files before the first of those are processed; that
    one is counted and announced (lines 78 and 79), and [open] raises. *)
Fixpoint process_files (online_serials : gmap str RevocationEntry)
  (st : State) (xml_files : list (str * option str)) : Ending :=
  match xml_files with
  | [] => Returned st
  | (xml_file, Some text) :: rest =>
      process_files online_serials
        (process_file online_serials st (xml_file, text)) rest
  | (xml_file, None) :: _ =>
      Raised (OpenFailed xml_file) (begin_file xml_file st)
  end.

(** Lines 147 to 152, up to the prompt [input] writes. *)
Definition prompt (st : State) : State :=
  print (EDeleteHeader :: map EFileToDelete (files_to_delete st) ++
         [ETotalToDelete (length (files_to_delete st)); EPrompt]) st.

(** Lines 146 to 175 when the input may be at its end ([None]): [input]
    is called only if there is a file to delete. *)
Definition confirm_or_raise (answer : option str) (st : State) : Ending :=
  match files_to_delete st, answer with
  | [], _ => Returned st
  | _ :: _, Some line => Returned (confirm_and_delete line st)
  | _ :: _, None => Raised EndOfInput (prompt st)
  end.

(** The call [main()] of line 197 with the exceptions it lets through:
    an entry of [directory] holds [None] when it cannot be opened or
    read, [answer] is [None] when there is no line left to read. *)
Definition call_main (reply : Reply) (directory : list (str * option str))
  (answer : option str) : Ending :=
  let st := print [EDownloading] initial in
  let '(online_serials, errors) := get_online_serial_list reply in
  let st := print errors st in
  let xml_files := filter (fun file => is_xml file.1) directory in
  match xml_files with
  | [] => Returned (print [ENoXmlFiles] st)
  | _ :: _ =>
      match process_files online_serials st xml_files with
      | Returned st => confirm_or_raise answer (report st)
      | Raised e st => Raised e st
      end
  end.

End Run.

(** ** Start-up *)

(** The third-party packages that can be imported. *)
Record Packages := {
  has_requests : bool;
  has_colorama : bool;
  has_cryptography : bool
}.

(** Lines 1 to 8, in order: the first import that fails, if any.  [os],
    [re], [time] and [collections] belong to Python itself. *)
Definition module_imports (env : Packages) : option str :=
  if negb (has_requests env) then Some (lit "requests")
  else if negb (has_colorama env) then Some (lit "colorama")
  else if negb (has_cryptography env) then Some (lit "cryptography")
  else None.

(** Lines 178 to 196: the guarded imports of the [__main__] block. *)
Definition guarded_imports (env : Packages) : option str :=
  if negb (has_cryptography env) then Some (lit "cryptography")
  else if negb (has_colorama env) then Some (lit "colorama")
  else if negb (has_requests env) then Some (lit "requests")
  else None.

(** How a run of the file as a script ends: what has been printed and
    the exit status of the interpreter. *)
Inductive Outcome :=
| Exited (st : State) (status : nat).

(** Running the file as a script.  An import that fails at module level
    is an uncaught [ImportError]: a traceback and status 1; a guarded
    import that fails prints its hint and calls [exit(1)].  Then [main()]
    is called: the status is 0 when it returns, and an exception that
    leaves it ends the run with a traceback and status 1. *)
Definition script (env : Packages)
  (load_pem_x509_certificate : str -> option Certificate)
  (os_remove : str -> bool)
  (reply : Reply) (directory : list (str * option str))
  (answer : option str)
  : Outcome :=
  match module_imports env with
  | Some module => Exited (print [ETraceback module] initial) 1
  | None =>
      match guarded_imports env with
      | Some package => Exited (print [EInstallHint package] initial) 1
      | None =>
          match call_main load_pem_x509_certificate os_remove reply
                  directory answer with
          | Returned st => Exited st 0
          | Raised e st => Exited (print [EUncaught e] st) 1
          end
      end
  end.

(** ** Specification of a scan *)

(** [scanned re pieces tail s]: the text [s] read left to right is, for
    each piece [(gap, m)] in turn, a stretch [gap] in which no match of
    [re] starts followed by a match [m], and in the end a [tail] in which
    no match starts. *)
Inductive scanned (re : Re.regex) : list (str * str) -> str -> str -> Prop :=
| scanned_done (s : str) :
    (forall j, Re.match_here re (drop j s) = None) ->
    scanned re [] s s
| scanned_match (gap m : str) (pieces : list (str * str)) (tail s : str) :
    (forall j, j < length gap ->
               Re.match_here re (drop j (gap ++ m ++ s)) = None) ->
    m <> [] ->
    Re.match_here re (m ++ s) = Some (length m) ->
    scanned re pieces tail s ->
    scanned re ((gap, m) :: pieces) tail (gap ++ m ++ s).

(** One more unmatched character in front of a scanned text. *)
Definition push_char (c : ascii) (pt : list (str * str) * str)
  : list (str * str) * str :=
  match pt with
  | ([], tail) => ([], c :: tail)
  | ((gap, m) :: pieces, tail) => ((c :: gap, m) :: pieces, tail)
  end.


(** ** Specification of the extraction *)

(** [t] is [raw] cut at the first occurrence of [marker], or all of [raw]
    when the marker occurs nowhere. *)
Definition truncated_at_first (marker raw t : str) : Prop :=
  (forall i, i < length t -> ~ Str.occurs_at marker raw i) /\
  ((t = raw /\ forall i, ~ Str.occurs_at marker raw i) \/
   exists rest, raw = t ++ marker ++ rest).

(** A block opens with the BEGIN marker, runs to the nearest END marker
    after it and closes with the nearest five dashes after that. *)
Definition bounded_block (b : str) : Prop :=
  exists mid tail,
    b = BEGIN_CERT ++ mid ++ END_CERT ++ tail ++ DASHES /\
    (forall i, i < length mid ->
               ~ Str.occurs_at END_CERT (mid ++ END_CERT) i) /\
    (forall i, i < length tail -> ~ Str.occurs_at DASHES (tail ++ DASHES) i).

(** The END marker occurs in [b] once. *)
Definition single_end_marker (b : str) : Prop :=
  exists k, forall i, Str.occurs_at END_CERT b i <-> i = k.

(** ** Specification of the run *)

(** The issuer attribute the script reads: the first one whose type is
    the serial number. *)
Definition serial_attribute (attrs : list NameAttribute)
  : option NameAttribute :=
  find (fun attr => bool_decide (oid attr = SERIAL_NUMBER)) attrs.

(** No character of [s] is a hexadecimal digit, in either case. *)
Definition no_hex_character (s : str) : Prop :=
  Forall (fun c => Hex.is_lower_hex (Str.lower_char c) = false) s.

Section RunSpec.

Variable load_pem_x509_certificate : str -> option Certificate.

(** The block is a certificate whose matched entry has the status
    ["REVOKED"]. *)
Definition revoked_cert (online_serials : gmap str RevocationEntry)
  (cert : str) : bool :=
  match status_info
          (process_certificate load_pem_x509_certificate (Str.strip cert)
             online_serials).1 with
  | Some info => is_string REVOKED (status info)
  | None => false
  end.

(** Number of revoked certificates among the blocks of a file. *)
Definition revoked_in (online_serials : gmap str RevocationEntry)
  (text : str) : nat :=
  length (filter (fun cert => revoked_cert online_serials cert = true)
            (extract_certificates text)).

End RunSpec.

(** What a stretch of the run leaves alone when it only prints and counts
    revoked certificates. *)
Definition same_files (st st' : State) : Prop :=
  total_count st' = total_count st /\
  files_to_delete st' = files_to_delete st /\
  removed st' = removed st.

(** The three kinds of failure of the download: the request raises, the
    status is a client or server error, the body is not JSON. *)
Definition fetch_failure (reply : Reply) : Prop :=
  reply = RequestFailed \/
  (exists status_code json,
      reply = Response status_code json /\ 400 <= status_code < 600) \/
  (exists status_code, reply = Response status_code None).

(** A status code outside 200..299. *)
Definition non_2xx (status_code : nat) : Prop :=
  ~ (200 <= status_code < 300).

(** The same three kinds with every status outside 200..299 taken for a
    failure. *)
Definition fetch_failure_any_non_2xx (reply : Reply) : Prop :=
  reply = RequestFailed \/
  (exists status_code json,
      reply = Response status_code json /\ non_2xx status_code) \/
  (exists status_code, reply = Response status_code None).

(** ** Sample data *)

Definition newline : str := ["010"%char].

Definition pem (body : string) : str :=
  BEGIN_CERT ++ DASHES ++ newline ++ lit body ++ newline
  ++ END_CERT ++ DASHES.

Definition cert_1a2b : Certificate :=
  {| serial_number := 6699; issuer := [] |}.

Definition cert_issued_by_1a2b : Certificate :=
  {| serial_number := 77;
     issuer := [ {| oid := [2; 5; 4; 3]; value := lit "Keybox CA" |};
                 {| oid := SERIAL_NUMBER; value := lit "1A:2B" |} ] |}.

Definition cert_blank_issuer : Certificate :=
  {| serial_number := 77;
     issuer := [ {| oid := SERIAL_NUMBER; value := lit "ZZ-??" |} ] |}.

(** A parser that knows three blocks. *)
Definition sample_loader (cert_pem : str) : option Certificate :=
  if Str.eqb cert_pem (pem "AAAA") then Some cert_1a2b
  else if Str.eqb cert_pem (pem "BBBB") then Some cert_issued_by_1a2b
  else if Str.eqb cert_pem (pem "CCCC") then Some cert_blank_issuer
  else None.

Definition entry (s r : string) : RevocationEntry :=
  {| status := JString (lit s); reason := JString (lit r) |}.

Definition sample_table : gmap str RevocationEntry :=
  <[lit "1a2b" := entry "REVOKED" "KEY_COMPROMISE"]> ∅.

Definition lowercase_table : gmap str RevocationEntry :=
  <[lit "1a2b" := entry "revoked" "KEY_COMPROMISE"]> ∅.

(** Both keys of [cert_issued_by_1a2b]: its own serial 4d and the serial
    of its issuer. *)
Definition both_keys_table : gmap str RevocationEntry :=
  <[lit "4d" := entry "VALID" "UNSPECIFIED"]> sample_table.

(** The feed that decodes to [sample_table]. *)
Definition sample_json : JValue :=
  JObject
    [(lit "entries",
      JObject
        [(lit "1A2B",
          JObject [(lit "status", JString (lit "REVOKED"));
                   (lit "reason", JString (lit "KEY_COMPROMISE"))])])].

Definition keybox (certs : list str) : str :=
  lit "<Keybox><CertificateChain>" ++ concat certs
  ++ lit "</CertificateChain></Keybox>".

Definition always_removable (file_name : str) : bool := true.

Definition one_revoked_keybox : list (str * str) :=
  [(lit "k.xml", keybox [pem "AAAA"])].

Definition two_revoked_in_one_keybox : list (str * str) :=
  [(lit "k.xml", keybox [pem "AAAA"; pem "AAAA"])].

Definition empty_and_revoked : list (str * str) :=
  [(lit "empty.xml", lit "<Keybox></Keybox>");
   (lit "k.xml", keybox [pem "AAAA"])].

Definition only_requests_missing : Packages :=
  {| has_requests := false; has_colorama := true; has_cryptography := true |}.

Definition only_colorama_missing : Packages :=
  {| has_requests := true; has_colorama := false; has_cryptography := true |}.

Definition only_cryptography_missing : Packages :=
  {| has_requests := true; has_colorama := true; has_cryptography := false |}.


(** A directory all of whose files can be read. *)
Definition readable (directory : list (str * str))
  : list (str * option str) :=
  map (fun file => (file.1, Some file.2)) directory.


(** ** Specification of the decoded feed *)

(** The entry lines 18 to 21 store for an [info] object. *)
Definition entry_of (info : list (str * JValue)) : RevocationEntry :=
  {| status := dict_get (lit "status") (JString (lit "UNKNOWN")) info;
     reason := dict_get (lit "reason") (JString (lit "UNSPECIFIED")) info |}.

Definition is_object (v : JValue) : bool :=
  match v with JObject _ => true | _ => false end.

(** The last item of the feed whose serial is [key] once lowercased. *)
Fixpoint last_info (key : str) (items : list (str * JValue))
  : option JValue :=
  match items with
  | [] => None
  | (serial, v) :: rest =>
      match last_info key rest with
      | Some later => Some later
      | None => if decide (Str.lower serial = key) then Some v else None
      end
  end.

(** A response that passes [raise_for_status] and decodes to an object
    whose [entries] are the given items. *)
Definition feed_with (reply : Reply) (items : list (str * JValue)) : Prop :=
  exists status_code data,
    reply = Response status_code (Some (JObject data)) /\
    raise_for_status status_code = false /\
    dict_get (lit "entries") (JObject []) data = JObject items.

Definition mixed_case_feed : JValue :=
  JObject
    [(lit "entries",
      JObject
        [(lit "1a2b", JObject [(lit "status", JString (lit "VALID"))]);
         (lit "1A2B", JObject [(lit "reason", JString (lit "SUPERSEDED"))]);
         (lit "00ff", JObject [])])].

Definition broken_feed : JValue :=
  JObject
    [(lit "entries",
      JObject
        [(lit "1a2b", JObject [(lit "status", JString (lit "REVOKED"))]);
         (lit "00ff", JString (lit "REVOKED"))])].

(** ** Reading a key back *)

(** The value of a lowercase hexadecimal digit. *)
Definition digit_value (c : ascii) : N :=
  if Str.between 48 57 c then N.of_nat (Str.code c - 48)
  else N.of_nat (Str.code c - 87).

(** The number a string of hexadecimal digits stands for, read from the
    left starting from [v]. *)
Definition hex_value_from (v : N) (s : str) : N :=
  fold_left (fun acc c => (16 * acc + digit_value c)%N) s v.

Definition hex_value (s : str) : N := hex_value_from 0 s.

Definition garbage_block : str :=
  BEGIN_CERT ++ DASHES ++ lit "????" ++ END_CERT ++ DASHES.

(** ** Further specification of the run *)

(** Number of matches recorded in [files_with_matches]. *)
Definition recorded (st : State) : nat :=
  sum_list (map (fun fm : str * list Match => length fm.2)
              (files_with_matches st)).

(** Every match recorded has the status ["REVOKED"]. *)
Definition all_recorded_revoked (st : State) : Prop :=
  Forall (fun fm : str * list Match =>
            Forall (fun m => match_status m = JString REVOKED) fm.2)
    (files_with_matches st).

Definition removable_but (denied : str) (file_name : str) : bool :=
  negb (Str.eqb file_name denied).

Definition two_revoked_keyboxes : list (str * str) :=
  [(lit "a.xml", keybox [pem "AAAA"]);
   (lit "notes.txt", keybox [pem "AAAA"]);
   (lit "B.XML", keybox [pem "CCCC"; pem "BBBB"])].

(** The matches recorded are as many as the certificates counted, and all
    of them are revoked. *)
Definition records_consistent (st : State) : Prop :=
  recorded st = found_count st /\ all_recorded_revoked st.

(** ** Further specification of the extraction *)

Definition COMMENT_OPEN : str := lit "<!--".
Definition COMMENT_CLOSE : str := lit "-->".

(** [marker] occurs in [s ++ marker] at the end only. *)
Definition first_at_end (marker s : str) : Prop :=
  forall i, i < length s -> ~ Str.occurs_at marker (s ++ marker) i.

(** A PEM block around the text [body]. *)
Definition pem_block (body : str) : str :=
  BEGIN_CERT ++ DASHES ++ newline ++ body ++ newline ++ END_CERT ++ DASHES.

Definition dash_free (s : str) : Prop := Forall (fun c => c <> "-"%char) s.

(** Blocks in a row, each after a gap, and a tail. *)
Fixpoint chain (pieces : list (str * str)) (tail : str) : str :=
  match pieces with
  | [] => tail
  | (gap, body) :: rest => gap ++ pem_block body ++ chain rest tail
  end.

(** [marker] occurs in [s] at no index below [n]. *)
Fixpoint none_before (marker s : str) (n : nat) : bool :=
  match n with
  | O => true
  | S k => negb (Str.startswith marker (drop k s)) && none_before marker s k
  end.

Definition two_certificates : list (str * str) :=
  [(lit "<Certificate>", lit "AAAA");
   (lit "</Certificate><Certificate>", lit "BBBB")].

Definition feed_without_entries : JValue :=
  JObject [(lit "version", JNumber 3)].

(** ** The extraction in terms of the markers *)

(** A comment starts at index [i] of [s]: the opener is there and a
    closer begins at or after its end. *)
Definition comment_at (s : str) (i : nat) : Prop :=
  Str.occurs_at COMMENT_OPEN s i /\
  exists j, i + length COMMENT_OPEN <= j /\ Str.occurs_at COMMENT_CLOSE s j.

(** A certificate block starts at index [i] of [s]: the BEGIN marker is
    there, [-----END CERTIFICATE] begins at or after its end, and five
    dashes begin at or after the end of that. *)
Definition certificate_at (s : str) (i : nat) : Prop :=
  Str.occurs_at BEGIN_CERT s i /\
  exists j k,
    i + length BEGIN_CERT <= j /\ Str.occurs_at END_CERT s j /\
    j + length END_CERT <= k /\ Str.occurs_at DASHES s k.

(** [comments_removed s out]: read from the left, [s] is a stretch in
    which no comment starts, then a comment that closes at the first
    closer after its opener, and so on; [out] is [s] without these
    comments. *)
Inductive comments_removed : str -> str -> Prop :=
| comments_none (s : str) :
    (forall i, ~ comment_at s i) ->
    comments_removed s s
| comments_one (gap body rest out : str) :
    (forall i, i < length gap ->
       ~ comment_at (gap ++ COMMENT_OPEN ++ body ++ COMMENT_CLOSE ++ rest) i) ->
    first_at_end COMMENT_CLOSE body ->
    comments_removed rest out ->
    comments_removed (gap ++ COMMENT_OPEN ++ body ++ COMMENT_CLOSE ++ rest)
      (gap ++ out).

(** The block that opens with the BEGIN marker, holds [mid] up to
    [-----END CERTIFICATE] and [tail] up to the closing dashes. *)
Definition block_of (mid tail : str) : str :=
  BEGIN_CERT ++ mid ++ END_CERT ++ tail ++ DASHES.

(** [blocks_in s blocks]: read from the left, [s] is a stretch in which no
    certificate block starts, then a block that runs to the first
    [-----END CERTIFICATE] after its BEGIN marker and to the first five
    dashes after that, and so on; [blocks] are these blocks in order. *)
Inductive blocks_in : str -> list str -> Prop :=
| blocks_none (s : str) :
    (forall i, ~ certificate_at s i) ->
    blocks_in s []
| blocks_one (gap mid tail rest : str) (blocks : list str) :
    (forall i, i < length gap ->
       ~ certificate_at (gap ++ block_of mid tail ++ rest) i) ->
    first_at_end END_CERT mid ->
    first_at_end DASHES tail ->
    blocks_in rest blocks ->
    blocks_in (gap ++ block_of mid tail ++ rest) (block_of mid tail :: blocks).

(** The wording of the specification: a block runs from a BEGIN marker to
    an END marker line and holds no other BEGIN marker. *)
Definition ends_at_own_marker (b : str) : Prop :=
  (exists body, b = BEGIN_CERT ++ body ++ END_CERT ++ DASHES) /\
  forall i, 0 < i -> ~ Str.occurs_at BEGIN_CERT b i.

(** A certificate whose END line lacks its closing dashes, then a
    complete one. *)
Definition unclosed_end_line : str :=
  BEGIN_CERT ++ DASHES ++ newline ++ lit "AAAA" ++ newline ++ END_CERT
  ++ newline ++ pem "BBBB".

(** A certificate without END line, then a complete one. *)
Definition unterminated_then_complete : str :=
  BEGIN_CERT ++ DASHES ++ newline ++ lit "AAAA" ++ newline ++ pem "BBBB".
(** * Properties *)

(** ** Strings *)

Lemma eqb_char_eq (a b : ascii) : Str.eqb_char a b = true <-> a = b.
Proof. apply Ascii.eqb_eq. Qed.

Lemma str_eqb_eq (a b : str) : Str.eqb a b = true <-> a = b.
Proof.
  revert b. induction a as [|x a IH]; intros [|y b]; simpl; try easy.
  rewrite andb_true_iff, eqb_char_eq, IH. split.
  - intros [-> ->]. reflexivity.
  - intros [= -> ->]. auto.
Qed.

Lemma startswith_app (p s : str) :
  Str.startswith p s = true <-> exists r, s = p ++ r.
Proof.
  revert s. induction p as [|a p IH]; intros s; simpl.
  - split; eauto.
  - destruct s as [|b s].
    + split; [discriminate | intros [r Hr]; discriminate].
    + rewrite andb_true_iff, eqb_char_eq, IH. split.
      * intros [-> [r ->]]. eauto.
      * intros [r [= -> ->]]. eauto.
Qed.

Lemma startswith_self_app (p r : str) : Str.startswith p (p ++ r) = true.
Proof. apply startswith_app. eauto. Qed.

Lemma drop_while_head (p : ascii -> bool) (c : ascii) (s : str) :
  p c = false -> Str.drop_while p (c :: s) = c :: s.
Proof. intros H. simpl. rewrite H. reflexivity. Qed.

(** ** Hexadecimal rendering *)

Lemma digit_hex (d : N) :
  (d < 16)%N ->
  Hex.is_lower_hex (Hex.digit d) = true /\
  Str.lower_char (Hex.digit d) = Hex.digit d /\
  (Hex.digit d = "0"%char -> d = 0%N).
Proof.
  intros Hd. unfold Hex.digit.
  assert (Hk : N.to_nat d < 16) by lia.
  assert (Hz : N.to_nat d = 0 -> d = 0%N) by lia.
  revert Hk Hz. generalize (N.to_nat d) as k. intros k Hk Hz.
  do 16 (destruct k as [|k];
         [vm_compute; repeat split; try reflexivity; try discriminate; auto|]).
  lia.
Qed.

Lemma log2_div16 (n : N) :
  (n / 16)%N <> 0%N -> (N.log2 (n / 16) < N.log2 n)%N.
Proof.
  intros Hq.
  assert (Hn : (16 <= n)%N).
  { destruct (N.le_gt_cases 16 n) as [H|H]; [exact H|].
    rewrite N.div_small in Hq by exact H. congruence. }
  change 16%N with (2 ^ 4)%N. rewrite <- N.shiftr_div_pow2, N.log2_shiftr.
  assert (4 <= N.log2 n)%N.
  { change 4%N with (N.log2 16). apply N.log2_le_mono. exact Hn. }
  lia.
Qed.

(** The digits of a non-zero number: a first digit other than [0], all of
    them lowercase hexadecimal digits. *)
Lemma of_N_from_shape (fuel : nat) (n : N) (acc : str) :
  n <> 0%N -> N.to_nat (N.log2 n) < fuel ->
  exists d ds,
    Hex.of_N_from fuel n acc = (d :: ds) ++ acc /\
    d <> "0"%char /\
    forallb Hex.is_lower_hex (d :: ds) = true /\
    Str.lower (d :: ds) = d :: ds.
Proof.
  revert n acc. induction fuel as [|fuel IH]; intros n acc Hn Hfuel; [lia|].
  simpl. destruct (N.eqb_spec n 0%N) as [?|_]; [congruence|].
  assert (Hm : (n mod 16 < 16)%N) by (apply N.mod_lt; discriminate).
  destruct (digit_hex _ Hm) as (Hhex & Hlow & Hzero).
  destruct (N.eq_dec (n / 16)%N 0%N) as [Hq|Hq].
  - exists (Hex.digit (n mod 16)%N), [].
    assert (Hret : Hex.of_N_from fuel (n / 16)%N (Hex.digit (n mod 16)%N :: acc)
                   = Hex.digit (n mod 16)%N :: acc).
    { rewrite Hq. destruct fuel; reflexivity. }
    rewrite Hret. repeat split.
    + intros H0. apply Hzero in H0.
      pose proof (N.div_mod n 16%N ltac:(discriminate)). lia.
    + simpl. rewrite Hhex. reflexivity.
    + simpl. rewrite Hlow. reflexivity.
  - pose proof (log2_div16 n Hq) as Hlog.
    destruct (IH (n / 16)%N (Hex.digit (n mod 16)%N :: acc) Hq ltac:(lia))
      as (d & ds & Heq & Hd & Hall & Hlower).
    exists d, (ds ++ [Hex.digit (n mod 16)%N]). repeat split.
    + rewrite Heq. simpl. rewrite <- app_assoc. reflexivity.
    + exact Hd.
    + simpl in Hall. apply andb_true_iff in Hall as [Hd1 Hds].
      simpl. rewrite forallb_app, Hd1, Hds. simpl. rewrite Hhex. reflexivity.
    + unfold Str.lower in *. simpl in Hlower. injection Hlower as Hd1 Hds.
      simpl. rewrite map_app, Hd1, Hds. simpl. rewrite Hlow. reflexivity.
Qed.

(** For a positive serial number the key is the hexadecimal rendering
    itself: not empty, lowercase hexadecimal digits only, no leading zero. *)
Lemma subject_serial_hex_positive (cert : Certificate) :
  (0 < serial_number cert)%Z ->
  exists d ds,
    subject_serial_hex cert = d :: ds /\
    d <> "0"%char /\
    forallb Hex.is_lower_hex (d :: ds) = true.
Proof.
  intros Hpos. unfold subject_serial_hex.
  destruct (serial_number cert) as [|p|p]; try lia.
  unfold Hex.format_x, Hex.of_N.
  destruct (N.eqb_spec (N.pos p) 0) as [?|_]; [discriminate|].
  destruct (of_N_from_shape (S (N.to_nat (N.log2 (N.pos p)))) (N.pos p) [])
    as (d & ds & Heq & Hd & Hall & Hlower); [discriminate | lia |].
  rewrite Heq, app_nil_r, Hlower. exists d, ds. repeat split; auto.
  unfold Str.lstrip. apply drop_while_head.
  simpl. rewrite orb_false_r.
  destruct (Str.eqb_char d "0") eqn:E; [|reflexivity].
  apply eqb_char_eq in E. contradiction.
Qed.

(** C1, at the serial number zero: [format(0, "x")] is ["0"] and
    [lstrip("0")] leaves nothing of it, so the subject key of such a
    certificate is the empty string (printed as [N/A]), not ["0"]. *)
Theorem subject_serial_hex_zero_is_empty :
  subject_serial_hex {| serial_number := 0; issuer := [] |} = lit "" /\
  hex_serial (evaluate {| serial_number := 0; issuer := [] |} ∅) = Some [] /\
  or_na (hex_serial (evaluate {| serial_number := 0; issuer := [] |} ∅))
    = lit "N/A".
Proof. repeat split. Qed.

(** ** Splitting *)

(** The first piece of a split is the text before the first occurrence of
    the separator, or the whole text when there is none. *)
Lemma split_from_hd (sep cur s : str) :
  sep <> [] ->
  exists pre,
    hd [] (Str.split_from sep 0 cur s) = rev cur ++ pre /\
    (forall i, i < length pre -> Str.startswith sep (drop i s) = false) /\
    ((s = pre /\ forall i, Str.startswith sep (drop i s) = false) \/
     exists rest, s = pre ++ sep ++ rest).
Proof.
  intros Hsep. revert cur. induction s as [|c s IH]; intros cur.
  - exists []. simpl. rewrite app_nil_r. repeat split.
    + intros i Hi. inversion Hi.
    + left. split; [reflexivity|]. intros i. rewrite drop_nil.
      destruct sep; [congruence | reflexivity].
  - cbn [Str.split_from].
    destruct (Str.startswith sep (c :: s)) eqn:Hst.
    + exists []. cbn [hd]. rewrite app_nil_r. repeat split.
      * intros i Hi. inversion Hi.
      * right. apply startswith_app in Hst as [rest ->]. eauto.
    + destruct (IH (c :: cur)) as (pre & Hhd & Hnone & Hcase).
      exists (c :: pre). repeat split.
      * rewrite Hhd. simpl. rewrite <- app_assoc. reflexivity.
      * intros [|i] Hi; [exact Hst|]. simpl in Hi. apply Hnone. lia.
      * destruct Hcase as [[-> Hall]|[rest ->]].
        -- left. split; [reflexivity|]. intros [|i]; [exact Hst | apply Hall].
        -- right. exists rest. reflexivity.
Qed.

(** ** Matching *)

Lemma match_here_le (re : Re.regex) (s : str) (n : nat) :
  Re.match_here re s = Some n -> n <= length s.
Proof.
  revert s n. induction re as [|a re IH]; intros s n.
  - simpl. intros [= <-]. lia.
  - destruct a as [l| |p].
    + simpl. destruct (Str.startswith l s) eqn:Hst; [|discriminate].
      apply startswith_app in Hst as [r ->].
      rewrite drop_app_length.
      destruct (Re.match_here re r) as [m|] eqn:Hm; [|discriminate].
      simpl. intros [= <-]. apply IH in Hm. rewrite length_app. lia.
    + revert n. induction s as [|c s IHs]; intros n; simpl.
      * destruct (Re.match_here re []) as [m|] eqn:Hm; [|discriminate].
        intros [= <-]. apply IH in Hm. exact Hm.
      * destruct (Re.match_here re (c :: s)) as [m|] eqn:Hm.
        -- intros [= <-]. apply IH in Hm. exact Hm.
        -- change ((S <$> Re.match_here (Re.AnyLazy :: re) s) = Some n
                   -> n <= S (length s)).
           destruct (Re.match_here (Re.AnyLazy :: re) s) as [k|] eqn:Hk;
             [|discriminate].
           simpl. intros [= <-]. specialize (IHs k eq_refl). lia.
    + destruct s as [|c s]; simpl; [discriminate|].
      destruct (p c); [|discriminate].
      destruct (Re.match_here re s) as [m|] eqn:Hm; [|discriminate].
      simpl. intros [= <-]. apply IH in Hm. lia.
Qed.

Lemma match_lit (l : str) (re : Re.regex) (s : str) (n : nat) :
  Re.match_here (Re.Lit l :: re) s = Some n <->
  exists r m, s = l ++ r /\ Re.match_here re r = Some m /\ n = length l + m.
Proof.
  simpl. split.
  - destruct (Str.startswith l s) eqn:Hst; [|discriminate].
    apply startswith_app in Hst as [r ->]. rewrite drop_app_length.
    destruct (Re.match_here re r) as [m|] eqn:Hm; [|discriminate].
    simpl. intros [= <-]. exists r, m. auto.
  - intros (r & m & -> & Hm & ->).
    rewrite startswith_self_app, drop_app_length, Hm. reflexivity.
Qed.

Lemma match_lit_none (l : str) (re : Re.regex) (s r : str) :
  Re.match_here (Re.Lit l :: re) s = None -> s = l ++ r ->
  Re.match_here re r = None.
Proof.
  intros Hnone ->. simpl in Hnone.
  rewrite startswith_self_app, drop_app_length in Hnone.
  destruct (Re.match_here re r); [discriminate | reflexivity].
Qed.

Lemma match_lazy_unfold (re : Re.regex) (s : str) :
  Re.match_here (Re.AnyLazy :: re) s =
  match Re.match_here re s with
  | Some n => Some n
  | None =>
      match s with
      | [] => None
      | _ :: s' => S <$> Re.match_here (Re.AnyLazy :: re) s'
      end
  end.
Proof. destruct s; reflexivity. Qed.

(** [.*?] takes the fewest characters after which the rest matches. *)
Lemma match_lazy_sound (re : Re.regex) (s : str) (n : nat) :
  Re.match_here (Re.AnyLazy :: re) s = Some n ->
  exists k m,
    n = k + m /\ k <= length s /\
    Re.match_here re (drop k s) = Some m /\
    forall j, j < k -> Re.match_here re (drop j s) = None.
Proof.
  revert n. induction s as [|c s IH]; intros n; rewrite match_lazy_unfold.
  - destruct (Re.match_here re []) as [m|] eqn:Hm; [|discriminate].
    intros [= <-]. exists 0, m. repeat split; auto. intros j Hj. lia.
  - destruct (Re.match_here re (c :: s)) as [m|] eqn:Hm.
    + intros [= <-]. exists 0, m. repeat split; auto.
      * simpl. lia.
      * intros j Hj. lia.
    + destruct (Re.match_here (Re.AnyLazy :: re) s) as [n'|] eqn:Hn';
        [|discriminate].
      simpl. intros [= <-].
      destruct (IH n' eq_refl) as (k & m & -> & Hk & Hmatch & Hmin).
      exists (S k), m. repeat split; auto.
      * simpl. lia.
      * intros [|j] Hj; [exact Hm|]. simpl. apply Hmin. lia.
Qed.

Lemma match_lazy_complete (re : Re.regex) (s : str) (k : nat) :
  Re.match_here (Re.AnyLazy :: re) s = None ->
  Re.match_here re (drop k s) = None.
Proof.
  revert k. induction s as [|c s IH]; intros k; rewrite match_lazy_unfold.
  - rewrite drop_nil. destruct (Re.match_here re []); [discriminate | auto].
  - destruct (Re.match_here re (c :: s)) as [m|] eqn:Hm; [discriminate|].
    destruct (Re.match_here (Re.AnyLazy :: re) s) as [n'|] eqn:Hn';
      [discriminate|].
    intros _. destruct k as [|k]; [exact Hm|]. simpl. apply IH. reflexivity.
Qed.

Lemma match_end_lit (l s : str) :
  Re.match_here [Re.Lit l] s =
  if Str.startswith l s then Some (length l + 0) else None.
Proof. simpl. destruct (Str.startswith l s); reflexivity. Qed.

(** ** Scanning: [findall] and [sub] *)

Lemma findall_from_skip (re : Re.regex) (k : nat) (s : str) :
  Re.findall_from re k s = Re.findall_from re 0 (drop k s).
Proof.
  revert k. induction s as [|c s IH]; intros [|k]; try reflexivity.
  simpl. apply IH.
Qed.

Lemma sub_from_skip (re : Re.regex) (k : nat) (s : str) :
  Re.sub_from re k s = Re.sub_from re 0 (drop k s).
Proof.
  revert k. induction s as [|c s IH]; intros [|k]; try reflexivity.
  simpl. apply IH.
Qed.

Lemma scanned_push (re : Re.regex) (c : ascii) pieces tail (s : str) :
  Re.match_here re (c :: s) = None ->
  scanned re pieces tail s ->
  scanned re (push_char c (pieces, tail)).1 (push_char c (pieces, tail)).2
    (c :: s).
Proof.
  intros Hnone Hs.
  destruct Hs as [s Hall | gap m pieces tail s Hgap Hm Hmatch Hs].
  - simpl. apply scanned_done. intros [|j]; [exact Hnone | apply Hall].
  - simpl. apply (scanned_match re (c :: gap) m pieces tail s); auto.
    intros [|j] Hj; [exact Hnone|]. simpl in Hj. apply Hgap. lia.
Qed.

Lemma push_char_outputs (c : ascii) (pt : list (str * str) * str) :
  (push_char c pt).1.*2 = pt.1.*2 /\
  flat_map fst (push_char c pt).1 ++ (push_char c pt).2
  = c :: flat_map fst pt.1 ++ pt.2.
Proof. destruct pt as [[|[gap m] pieces] tail]; split; reflexivity. Qed.

(** For a pattern that matches no empty string, [findall] returns the
    matches of the scan and [sub] what lies between them. *)
Lemma scan_exists (re : Re.regex) :
  (forall t, Re.match_here re t <> Some 0) ->
  forall s, exists pieces tail,
    scanned re pieces tail s /\
    Re.findall re s = pieces.*2 /\
    Re.sub_empty re s = flat_map fst pieces ++ tail.
Proof.
  intros Hne s. unfold Re.findall, Re.sub_empty.
  remember (length s) as n eqn:Hn.
  assert (Hle : length s <= n) by lia. clear Hn.
  revert s Hle. induction n as [|n IH]; intros s Hle.
  - destruct s as [|c s]; [|simpl in Hle; lia].
    exists [], []. repeat split. apply scanned_done.
    intros j. rewrite drop_nil.
    destruct (Re.match_here re []) as [m|] eqn:Hm; [|reflexivity].
    pose proof (match_here_le _ _ _ Hm) as Hlen. simpl in Hlen.
    assert (m = 0) by lia. subst m. destruct (Hne _ Hm).
  - destruct s as [|c s].
    { apply (IH []). simpl. lia. }
    simpl in Hle. simpl.
    destruct (Re.match_here re (c :: s)) as [[|k]|] eqn:Hm.
    + destruct (Hne _ Hm).
    + pose proof (match_here_le _ _ _ Hm) as Hlen. simpl in Hlen.
      destruct (IH (drop k s)) as (pieces & tail & Hscan & Hfind & Hsub).
      { rewrite length_drop. lia. }
      exists (([], c :: take k s) :: pieces), tail. repeat split.
      * pose proof (scanned_match re [] (c :: take k s) pieces tail
                      (drop k s)) as Hstep.
        simpl in Hstep. rewrite take_drop in Hstep. apply Hstep; auto.
        -- intros j Hj. lia.
        -- rewrite length_take. rewrite Hm. f_equal. lia.
      * rewrite findall_from_skip, Hfind. reflexivity.
      * rewrite sub_from_skip, Hsub. reflexivity.
    + destruct (IH s ltac:(lia)) as (pieces & tail & Hscan & Hfind & Hsub).
      pose proof (push_char_outputs c (pieces, tail)) as [Hout1 Hout2].
      exists (push_char c (pieces, tail)).1, (push_char c (pieces, tail)).2.
      repeat split.
      * apply scanned_push; assumption.
      * rewrite Hout1, Hfind. reflexivity.
      * rewrite Hout2, Hsub. reflexivity.
Qed.

Lemma scanned_matches (re : Re.regex) pieces tail (s : str) :
  scanned re pieces tail s ->
  Forall (fun m => exists rest, Re.match_here re (m ++ rest) = Some (length m))
    pieces.*2.
Proof.
  induction 1 as [|gap m pieces tail s _ _ Hmatch _ IH]; constructor; eauto.
Qed.

Lemma starts_with_lit_not_empty (l : str) (re : Re.regex) (t : str) :
  l <> [] -> Re.match_here (Re.Lit l :: re) t <> Some 0.
Proof.
  intros Hl Hm. apply match_lit in Hm as (r & m & _ & _ & Hlen).
  destruct l; [congruence | simpl in Hlen; lia].
Qed.

(** ** Certificate blocks *)

Lemma startswith_length (p s : str) :
  Str.startswith p s = true -> length p <= length s.
Proof.
  intros H. apply startswith_app in H as [r ->]. rewrite length_app. lia.
Qed.

Lemma startswith_app_r (p x b : str) :
  length p <= length x -> Str.startswith p (x ++ b) = Str.startswith p x.
Proof.
  revert x. induction p as [|a p IH]; intros [|c x] Hlen; simpl in *;
    try reflexivity; try lia.
  rewrite IH by lia. reflexivity.
Qed.

Lemma startswith_drop_app (p a b : str) (i : nat) :
  i + length p <= length a ->
  Str.startswith p (drop i (a ++ b)) = Str.startswith p (drop i a).
Proof.
  intros Hlen. rewrite drop_app_le by lia.
  apply startswith_app_r. rewrite length_drop. lia.
Qed.

(** A match of the certificate pattern is a bounded block. *)
Lemma cert_match_bounded (s : str) (n : nat) :
  Re.match_here CERT_RE s = Some n -> bounded_block (take n s).
Proof.
  unfold CERT_RE. intros H.
  apply match_lit in H as (r0 & m & -> & H & ->).
  apply match_lazy_sound in H as (k1 & m1 & -> & Hk1 & H & Hmin1).
  apply match_lit in H as (r1 & m2 & Hr1 & H & ->).
  apply match_lazy_sound in H as (k2 & m3 & -> & Hk2 & H & Hmin2).
  rewrite match_end_lit in H.
  destruct (Str.startswith DASHES (drop k2 r1)) eqn:Hd; [|discriminate].
  injection H as <-. apply startswith_app in Hd as [r2 Hr2].
  assert (E1 : r1 = (take k2 r1 ++ DASHES) ++ r2).
  { rewrite <- (take_drop k2 r1) at 1. rewrite Hr2, app_assoc. reflexivity. }
  assert (E0 : r0 = (take k1 r0 ++ END_CERT) ++ r1).
  { rewrite <- (take_drop k1 r0) at 1. rewrite Hr1, app_assoc. reflexivity. }
  exists (take k1 r0), (take k2 r1). split; [|split].
  - assert (E : BEGIN_CERT ++ r0 =
                (BEGIN_CERT ++ take k1 r0 ++ END_CERT ++ take k2 r1 ++ DASHES)
                ++ r2).
    { rewrite E0 at 1. rewrite E1 at 1. rewrite <- !app_assoc. reflexivity. }
    rewrite E. apply take_app_length'.
    rewrite !length_app, !length_take_le by lia.
    change (length DASHES) with 5. lia.
  - intros i Hi Hocc. rewrite length_take_le in Hi by lia.
    unfold Str.occurs_at in Hocc.
    assert (Hocc0 : Str.startswith END_CERT (drop i r0) = true).
    { rewrite E0. rewrite startswith_drop_app; [exact Hocc|].
      rewrite length_app, length_take_le by lia. lia. }
    apply startswith_app in Hocc0 as [x Hx].
    pose proof (match_lit_none _ _ _ _ (Hmin1 i Hi) Hx) as Hx1.
    pose proof (match_lazy_complete _ _ (k1 - i + k2) Hx1) as Hx2.
    assert (Ex : x = drop (length END_CERT) (drop i r0)).
    { rewrite Hx, drop_app_length. reflexivity. }
    rewrite Ex, !drop_drop in Hx2.
    replace (i + (length END_CERT + (k1 - i + k2)))
      with (k1 + (length END_CERT + k2)) in Hx2 by lia.
    rewrite <- !drop_drop, Hr1, drop_app_length, Hr2 in Hx2.
    rewrite match_end_lit, startswith_self_app in Hx2. discriminate.
  - intros i Hi Hocc. rewrite length_take_le in Hi by lia.
    unfold Str.occurs_at in Hocc.
    specialize (Hmin2 i Hi). rewrite match_end_lit in Hmin2.
    rewrite E1, startswith_drop_app, Hocc in Hmin2; [discriminate|].
    rewrite length_app, length_take_le by lia. lia.
Qed.

Lemma cert_re_not_empty (t : str) : Re.match_here CERT_RE t <> Some 0.
Proof. apply starts_with_lit_not_empty. discriminate. Qed.

Lemma comment_re_not_empty (t : str) : Re.match_here COMMENT_RE t <> Some 0.
Proof. apply starts_with_lit_not_empty. discriminate. Qed.

Lemma truncate_first (raw : str) :
  truncated_at_first CHAIN_END raw (truncate raw).
Proof.
  unfold truncate, Str.split.
  destruct (split_from_hd CHAIN_END [] raw ltac:(discriminate))
    as (pre & Hhd & Hnone & Hcase).
  simpl in Hhd. rewrite Hhd. split.
  - intros i Hi Hocc. unfold Str.occurs_at in Hocc.
    rewrite Hnone in Hocc by exact Hi. discriminate.
  - destruct Hcase as [[-> Hall]|[rest ->]].
    + left. split; [reflexivity|]. intros i Hocc.
      unfold Str.occurs_at in Hocc. rewrite Hall in Hocc. discriminate.
    + right. eauto.
Qed.

Lemma end_not_in_begin (x : str) (i : nat) :
  i < length BEGIN_CERT ->
  Str.startswith END_CERT (drop i (BEGIN_CERT ++ x)) = false.
Proof.
  change (length BEGIN_CERT) with 22. intros Hi.
  do 22 (destruct i as [|i]; [reflexivity|]). lia.
Qed.

Lemma end_not_in_end (x : str) (j : nat) :
  0 < j < length END_CERT ->
  Str.startswith END_CERT (drop j (END_CERT ++ x)) = false.
Proof.
  change (length END_CERT) with 20. intros Hj.
  destruct j as [|j]; [lia|].
  do 19 (destruct j as [|j]; [reflexivity|]). lia.
Qed.

Lemma startswith_shorter (p q s : str) :
  Str.startswith (p ++ q) s = true -> Str.startswith p s = true.
Proof.
  intros H. apply startswith_app in H as [r ->].
  rewrite <- app_assoc. apply startswith_self_app.
Qed.

(** The nearest END marker is the only one of a bounded block: no block
    runs over two certificates. *)
Lemma bounded_single_end (b : str) : bounded_block b -> single_end_marker b.
Proof.
  intros (mid & tail & -> & Hend & Hdash).
  exists (length BEGIN_CERT + length mid). intros i. unfold Str.occurs_at.
  split.
  - intros Hocc.
    destruct (Nat.lt_ge_cases i (length BEGIN_CERT)) as [Hlt|Hge].
    { rewrite end_not_in_begin in Hocc by exact Hlt. discriminate. }
    rewrite drop_app_ge in Hocc by exact Hge.
    remember (i - length BEGIN_CERT) as j eqn:Hj.
    destruct (Nat.lt_trichotomy j (length mid)) as [Hlt|[Heq|Hgt]]; [| lia |].
    + exfalso. apply (Hend j Hlt). unfold Str.occurs_at.
      rewrite <- Hocc. symmetry.
      rewrite (app_assoc mid END_CERT). apply startswith_drop_app.
      rewrite length_app. lia.
    + exfalso. rewrite drop_app_ge in Hocc by lia.
      remember (j - length mid) as e eqn:He.
      destruct (Nat.lt_ge_cases e (length END_CERT)) as [Hlt|Hge'].
      { rewrite end_not_in_end in Hocc by lia. discriminate. }
      rewrite drop_app_ge in Hocc by exact Hge'.
      remember (e - length END_CERT) as d eqn:Hd.
      destruct (Nat.lt_ge_cases d (length tail)) as [Hlt|Hge''].
      * apply (Hdash d Hlt). unfold Str.occurs_at.
        apply (startswith_shorter DASHES (lit "END CERTIFICATE")).
        exact Hocc.
      * apply startswith_length in Hocc.
        rewrite length_drop, length_app in Hocc.
        change (length END_CERT) with 20 in Hocc.
        change (length DASHES) with 5 in Hocc. lia.
  - intros ->. rewrite drop_app_ge by lia.
    replace (length BEGIN_CERT + length mid - length BEGIN_CERT)
      with (length mid) by lia.
    rewrite drop_app_length. apply startswith_self_app.
Qed.

(** ** Looking a certificate up *)

Lemma is_string_eq (s : str) (v : JValue) :
  is_string s v = true <-> v = JString s.
Proof.
  destruct v; simpl; try (split; [discriminate | intros [=]]).
  rewrite str_eqb_eq. split; [intros ->; reflexivity | intros [= ->]; auto].
Qed.

Lemma sub_non_hex (s : str) :
  Re.sub_empty NON_HEX_RE s = filter (fun c => Hex.is_lower_hex c = true) s.
Proof.
  unfold Re.sub_empty. induction s as [|c s IH]; [reflexivity|].
  cbn [Re.sub_from Re.match_here NON_HEX_RE].
  rewrite filter_cons.
  destruct (Hex.is_lower_hex c) eqn:Hc; simpl.
  - f_equal. exact IH.
  - exact IH.
Qed.

Lemma issuer_serial_of_attribute (attrs : list NameAttribute) :
  issuer_serial_of attrs =
  (fun attr => filter (fun c => Hex.is_lower_hex c = true)
                 (Str.lower (value attr))) <$> serial_attribute attrs.
Proof.
  unfold serial_attribute.
  induction attrs as [|attr attrs IH]; [reflexivity|].
  simpl. destruct (decide (oid attr = SERIAL_NUMBER)) as [Heq|Hne].
  - rewrite bool_decide_eq_true_2 by exact Heq. simpl.
    rewrite sub_non_hex. reflexivity.
  - rewrite bool_decide_eq_false_2 by exact Hne. exact IH.
Qed.

Lemma filter_hex_lower_nil (s : str) :
  no_hex_character s ->
  filter (fun c => Hex.is_lower_hex c = true) (Str.lower s) = [].
Proof.
  unfold no_hex_character, Str.lower.
  induction 1 as [|c s Hc _ IH]; [reflexivity|].
  simpl. rewrite filter_cons, decide_False; [exact IH|].
  rewrite Hc. discriminate.
Qed.

(** C5: the subject key is looked up first; a second lookup is made only
    when the subject key is absent and the issuer serial is a non-empty
    string, and it is the issuer key; an entry stored under the subject key
    is the one returned, whatever is stored under the issuer key. *)
Theorem lookup_subject_first (cert : Certificate)
  (online_serials : gmap str RevocationEntry) :
  let subject := subject_serial_hex cert in
  let issuer_key := issuer_serial_of (issuer cert) in
  let traced := lookup_status subject issuer_key online_serials in
  status_info (evaluate cert online_serials) = traced.1 /\
  head traced.2 = Some subject /\
  (forall key, tail traced.2 = [key] ->
     online_serials !! subject = None /\ issuer_key = Some key /\
     traced.1 = online_serials !! key) /\
  (tail traced.2 = [] \/ exists key, tail traced.2 = [key]) /\
  (forall info, online_serials !! subject = Some info ->
     traced.1 = Some info /\ traced.2 = [subject]).
Proof.
  intros subject issuer_key traced. subst traced.
  unfold evaluate, lookup_status, bind, query, ret.
  fold subject. fold issuer_key.
  destruct (online_serials !! subject) as [info|] eqn:Hsub.
  - simpl. repeat split; auto; congruence.
  - destruct issuer_key as [[|c ks]|]; simpl; repeat split; auto;
      try congruence.
    right. eexists. reflexivity.
Qed.

(** C10: when the serial-number attribute of the issuer name holds no
    hexadecimal character, the issuer serial is the empty string, the
    table is looked up under the subject key only, and the outcome is what
    the table holds under the subject key: an entry stored under the empty
    string is not reached through the issuer. *)
Theorem blank_issuer_serial_skipped (cert : Certificate)
  (online_serials : gmap str RevocationEntry) (attr : NameAttribute) :
  serial_attribute (issuer cert) = Some attr ->
  no_hex_character (value attr) ->
  issuer_serial (evaluate cert online_serials) = Some [] /\
  (lookup_status (subject_serial_hex cert)
     (issuer_serial (evaluate cert online_serials)) online_serials).2
  = [subject_serial_hex cert] /\
  status_info (evaluate cert online_serials)
  = online_serials !! subject_serial_hex cert /\
  found (evaluate cert online_serials)
  = bool_decide (is_Some (online_serials !! subject_serial_hex cert)).
Proof.
  intros Hattr Hblank.
  assert (Hiss : issuer_serial_of (issuer cert) = Some []).
  { rewrite issuer_serial_of_attribute, Hattr. simpl.
    rewrite filter_hex_lower_nil by exact Hblank. reflexivity. }
  unfold evaluate. simpl. rewrite Hiss.
  unfold lookup_status, bind, query, ret. simpl.
  destruct (online_serials !! subject_serial_hex cert); simpl; auto.
Qed.

Lemma blank_issuer_serial_skipped_witness :
  let table := <[lit "" := entry "REVOKED" "KEY_COMPROMISE"]> sample_table in
  let attr := {| oid := SERIAL_NUMBER; value := lit "ZZ-??" |} in
  serial_attribute (issuer cert_blank_issuer) = Some attr /\
  no_hex_character (value attr) /\
  table !! lit "" = Some (entry "REVOKED" "KEY_COMPROMISE") /\
  issuer_serial (evaluate cert_blank_issuer table) = Some [] /\
  status_info (evaluate cert_blank_issuer table) = None.
Proof.
  intros table attr.
  assert (Hattr : serial_attribute (issuer cert_blank_issuer) = Some attr)
    by reflexivity.
  assert (Hblank : no_hex_character (value attr))
    by (repeat constructor).
  destruct (blank_issuer_serial_skipped cert_blank_issuer table attr
              Hattr Hblank) as (Hiss & _ & Hinfo & _).
  split; [exact Hattr|]. split; [exact Hblank|].
  split; [vm_compute; reflexivity|].
  split; [exact Hiss|].
  rewrite Hinfo. vm_compute. reflexivity.
Defined.

(** ** The loops of [main] *)

(** Membership in a list given by appends and conses. *)
Ltac in_list :=
  repeat first [rewrite elem_of_app | rewrite elem_of_cons];
  auto 12.

Section RunFacts.

Variable load : str -> option Certificate.
Variable os_remove : str -> bool.

Implicit Types (st : State) (online_serials : gmap str RevocationEntry).

Lemma same_files_refl st : same_files st st.
Proof. repeat split. Qed.

Lemma same_files_trans st1 st2 st3 :
  same_files st1 st2 -> same_files st2 st3 -> same_files st1 st3.
Proof. unfold same_files. intros (?&?&?) (?&?&?). repeat split; congruence. Qed.

Lemma process_certificate_found online_serials cert_pem :
  found (process_certificate load cert_pem online_serials).1 =
  bool_decide
    (is_Some
       (status_info (process_certificate load cert_pem online_serials).1)).
Proof.
  unfold process_certificate. destruct (load cert_pem); reflexivity.
Qed.

(** One certificate adds one to both counters when it is revoked and
    nothing otherwise. *)
Lemma cert_step_counts xml_file online_serials st file_matches i cert :
  let r := if revoked_cert load online_serials cert then 1 else 0 in
  let next :=
    cert_step load xml_file online_serials (st, file_matches) (i, cert) in
  found_count next.1 = found_count st + r /\
  next.2 = file_matches + r /\
  same_files st next.1.
Proof.
  unfold cert_step, revoked_cert.
  pose proof (process_certificate_found online_serials (Str.strip cert)) as Hf.
  destruct (process_certificate load (Str.strip cert) online_serials)
    as [ev errors].
  simpl in Hf |- *. rewrite Hf.
  destruct (status_info ev) as [info|]; simpl.
  - destruct (is_string REVOKED (status info)); simpl;
      repeat split; auto; lia.
  - repeat split; auto; lia.
Qed.

Lemma cert_loop_counts xml_file online_serials certs :
  forall first st file_matches,
    let r := length (filter (fun cert =>
                 revoked_cert load online_serials cert = true) certs) in
    let final := foldl (cert_step load xml_file online_serials)
                   (st, file_matches) (zip (seq first (length certs)) certs) in
    found_count final.1 = found_count st + r /\
    final.2 = file_matches + r /\
    same_files st final.1.
Proof.
  induction certs as [|cert certs IH]; intros first st file_matches.
  - simpl. repeat split; auto; lia.
  - cbn [length seq zip zip_with foldl].
    pose proof (cert_step_counts xml_file online_serials st file_matches
                  first cert) as Hstep.
    destruct (cert_step load xml_file online_serials (st, file_matches)
                (first, cert)) as [st1 fm1].
    cbn [fst snd] in Hstep. destruct Hstep as (Hfound & Hfm & Hsame).
    specialize (IH (S first) st1 fm1). cbn zeta in IH.
    destruct IH as (IHfound & IHfm & IHsame).
    rewrite filter_cons.
    destruct (revoked_cert load online_serials cert) eqn:Hrev.
    + rewrite decide_True by reflexivity. cbn [length].
      split; [lia | split; [lia | eapply same_files_trans; eassumption]].
    + rewrite decide_False by discriminate.
      split; [lia | split; [lia | eapply same_files_trans; eassumption]].
Qed.

(** A file adds its revoked certificates to [found_count], one to
    [total_count], and its name to [files_to_delete] when it holds a
    revoked certificate. *)
Lemma process_file_counts online_serials st xml_file text :
  let r := revoked_in load online_serials text in
  let st' := process_file load online_serials st (xml_file, text) in
  found_count st' = found_count st + r /\
  total_count st' = total_count st + 1 /\
  files_to_delete st' =
    files_to_delete st ++ (if decide (r = 0) then [] else [xml_file]) /\
  removed st' = removed st.
Proof.
  unfold revoked_in, process_file.
  destruct (extract_certificates text) as [|cert certs] eqn:Hcerts.
  - simpl. rewrite app_nil_r. repeat split; lia.
  - pose proof (cert_loop_counts xml_file online_serials (cert :: certs)
                  1 (begin_file xml_file st) 0) as Hloop.
    unfold enumerate1.
    destruct (foldl (cert_step load xml_file online_serials)
                (begin_file xml_file st, 0)
                (zip (seq 1 (length (cert :: certs))) (cert :: certs)))
      as [st1 fm].
    cbn [fst snd] in Hloop. cbn zeta in Hloop.
    destruct Hloop as (Hfound & Hfm & Htotal & Hdel & Hrem).
    simpl in Hfound, Hfm, Htotal, Hdel, Hrem.
    rewrite <- Hfm. simpl.
    destruct fm as [|fm]; simpl.
    + rewrite app_nil_r. repeat split; auto; lia.
    + repeat split; auto; try lia. rewrite Hdel. reflexivity.
Qed.

Lemma files_loop_counts online_serials files :
  forall st,
    let st' := foldl (process_file load online_serials) st files in
    found_count st' =
      found_count st
      + sum_list
          (map (fun file => revoked_in load online_serials file.2) files) /\
    total_count st' = total_count st + length files /\
    files_to_delete st' =
      files_to_delete st
      ++ (filter (fun file => revoked_in load online_serials file.2 <> 0)
            files).*1 /\
    removed st' = removed st.
Proof.
  induction files as [|[xml_file text] files IH]; intros st.
  - simpl. rewrite app_nil_r. repeat split; lia.
  - cbn [foldl].
    pose proof (process_file_counts online_serials st xml_file text) as Hfile.
    cbn zeta in Hfile. destruct Hfile as (Hfound & Htotal & Hdel & Hrem).
    specialize (IH (process_file load online_serials st (xml_file, text))).
    cbn zeta in IH. destruct IH as (IHfound & IHtotal & IHdel & IHrem).
    rewrite IHfound, IHtotal, IHdel, IHrem, Hfound, Htotal, Hdel, Hrem.
    rewrite filter_cons. simpl.
    destruct (decide (revoked_in load online_serials text = 0)) as [Hz|Hnz].
    + rewrite decide_False by (intros H; apply H; exact Hz).
      rewrite app_nil_r. repeat split; lia.
    + rewrite decide_True by exact Hnz. simpl.
      rewrite <- app_assoc. repeat split; lia.
Qed.

(** *** After the loop *)

Lemma print_fields evs st :
  found_count (print evs st) = found_count st /\
  files_with_matches (print evs st) = files_with_matches st /\
  same_files st (print evs st) /\
  console (print evs st) = console st ++ evs.
Proof. repeat split. Qed.

Lemma report_fields st :
  found_count (report st) = found_count st /\
  same_files st (report st) /\
  exists more,
    console (report st) =
    console st
    ++ EFinalResults (total_count st)
         (Z.of_nat (total_count st) - Z.of_nat (found_count st))
         (found_count st) :: more.
Proof.
  unfold report. simpl.
  destruct (files_with_matches st); simpl; repeat split;
    rewrite <- ?app_assoc; simpl; eauto.
Qed.

Lemma delete_loop_removed files :
  forall st deleted_count,
    let final := foldl (delete_step os_remove) (st, deleted_count) files in
    removed final.1 = removed st ++ filter (fun f => os_remove f) files /\
    files_to_delete final.1 = files_to_delete st /\
    total_count final.1 = total_count st /\
    found_count final.1 = found_count st /\
    exists more, console final.1 = console st ++ more.
Proof.
  induction files as [|f files IH]; intros st deleted_count.
  - simpl. rewrite !app_nil_r. repeat split. exists []. rewrite app_nil_r.
    reflexivity.
  - cbn [foldl]. rewrite filter_cons.
    destruct (delete_step os_remove (st, deleted_count) f) as [st1 n1]
      eqn:Hstep.
    assert (Hone :
      removed st1 = removed st ++ (if os_remove f then [f] else []) /\
      files_to_delete st1 = files_to_delete st /\
      total_count st1 = total_count st /\
      found_count st1 = found_count st /\
      exists ev, console st1 = console st ++ [ev]).
    { unfold delete_step in Hstep.
      destruct (os_remove f); injection Hstep as <- <-; simpl;
        rewrite ?app_nil_r; repeat split; eauto. }
    destruct Hone as (Rrem & Rdel & Rtot & Rfound & ev & Rcon).
    destruct (IH st1 n1) as (Hrem & Hdel & Htot & Hfound & more & Hcon).
    cbn zeta. split; [|split; [|split; [|split]]].
    + rewrite Hrem, Rrem. destruct (os_remove f).
      * rewrite decide_True by exact I. rewrite <- app_assoc. reflexivity.
      * rewrite decide_False by (intros []). rewrite app_nil_r. reflexivity.
    + congruence.
    + congruence.
    + congruence.
    + exists (ev :: more). rewrite Hcon, Rcon, <- app_assoc. reflexivity.
Qed.

Lemma affirmative_spec (confirm : str) :
  affirmative confirm = true <->
  confirm = lit "" \/ confirm = lit "y" \/ confirm = lit "yes".
Proof.
  unfold affirmative. rewrite !orb_true_iff, !str_eqb_eq. tauto.
Qed.

(** The prompt: what is removed is what [os.remove] manages to remove of
    the candidates after an affirmative answer, and nothing otherwise. *)
Lemma confirm_and_delete_fields answer st :
  let st' := confirm_and_delete os_remove answer st in
  removed st' =
    removed st
    ++ (if affirmative (Str.lower (Str.strip answer))
        then filter (fun f => os_remove f) (files_to_delete st) else []) /\
  files_to_delete st' = files_to_delete st /\
  total_count st' = total_count st /\
  found_count st' = found_count st /\
  (exists more, console st' = console st ++ more) /\
  (files_to_delete st <> [] -> EPrompt ∈ console st').
Proof.
  unfold confirm_and_delete.
  destruct (files_to_delete st) as [|f files] eqn:Hfiles.
  - simpl. rewrite Hfiles.
    destruct (affirmative _); rewrite app_nil_r; repeat split; auto.
    all: try (exists []; rewrite app_nil_r; reflexivity).
    all: intros H; destruct H; reflexivity.
  - cbn zeta. set (shown := print _ st).
    assert (Hprompt : EPrompt ∈ console shown).
    { subst shown. simpl. in_list. }
    destruct (affirmative (Str.lower (Str.strip answer))).
    + pose proof (delete_loop_removed (files_to_delete shown)
                    (print [EDeleting] shown) 0) as Hloop.
      destruct (foldl (delete_step os_remove) (print [EDeleting] shown, 0)
                  (files_to_delete shown)) as [st1 n1].
      cbn [fst snd] in Hloop. cbn zeta in Hloop.
      destruct Hloop as (Hrem & Hdel & Htot & Hfound & more & Hcon).
      simpl in Hrem, Hdel, Htot, Hfound, Hcon. simpl.
      rewrite Hrem, Hdel, Htot, Hfound, Hcon, Hfiles.
      repeat split; auto.
      * rewrite <- !app_assoc. eauto.
      * intros _. simpl. in_list.
    + simpl. rewrite Hfiles, app_nil_r. repeat split; auto.
      * rewrite <- !app_assoc. eauto.
      * intros _. simpl. in_list.
Qed.

(** The whole run, in terms of the table and the files scanned. *)
Lemma main_fields reply directory answer :
  let online_serials := (get_online_serial_list reply).1 in
  let xml_files := filter (fun file => is_xml file.1) directory in
  let st := main load os_remove reply directory answer in
  found_count st =
    sum_list (map (fun file => revoked_in load online_serials file.2)
                xml_files) /\
  total_count st = length xml_files /\
  files_to_delete st =
    (filter (fun file => revoked_in load online_serials file.2 <> 0)
       xml_files).*1 /\
  removed st =
    (if affirmative (Str.lower (Str.strip answer))
     then filter (fun f => os_remove f) (files_to_delete st) else []).
Proof.
  unfold main.
  destruct (get_online_serial_list reply) as [online_serials errors].
  cbn [fst]. cbn zeta.
  destruct (filter (fun file => is_xml file.1) directory)
    as [|file files] eqn:Hxml.
  - simpl. destruct (affirmative _); repeat split.
  - set (st0 := print errors (print [EDownloading] initial)).
    pose proof (files_loop_counts online_serials (file :: files) st0)
      as Hloop.
    cbn zeta in Hloop. destruct Hloop as (Hfound & Htot & Hdel & Hrem).
    set (st1 := foldl (process_file load online_serials) st0 (file :: files))
      in *.
    destruct (report_fields st1) as (Rfound & (Rtot & Rdel & Rrem) & _).
    pose proof (confirm_and_delete_fields answer (report st1)) as Hconf.
    cbn zeta in Hconf.
    destruct Hconf as (Crem & Cdel & Ctot & Cfound & _ & _).
    rewrite Cfound, Ctot, Cdel, Crem, Rfound, Rtot, Rdel, Rrem.
    rewrite Hfound, Htot, Hdel, Hrem. simpl. repeat split.
Qed.

(** *** Revoked certificates *)

Lemma revoked_cert_spec online_serials cert :
  revoked_cert load online_serials cert = true <->
  exists info,
    status_info (process_certificate load (Str.strip cert) online_serials).1
    = Some info /\
    status info = JString REVOKED.
Proof using load.
  unfold revoked_cert.
  destruct (status_info _) as [info|].
  - rewrite is_string_eq. split; [eauto|]. intros (info' & [= <-] & H). exact H.
  - split; [discriminate|]. intros (info' & [=] & _).
Qed.

Lemma revoked_in_nonzero online_serials text :
  revoked_in load online_serials text <> 0 <->
  exists cert,
    cert ∈ extract_certificates text /\
    revoked_cert load online_serials cert = true.
Proof using load.
  unfold revoked_in.
  destruct (filter _ (extract_certificates text)) as [|cert rest] eqn:Hf.
  - split; [intros H; destruct H; reflexivity|].
    intros (cert & Hin & Hrev).
    assert (Hcert : cert ∈ filter
              (fun cert => revoked_cert load online_serials cert = true)
              (extract_certificates text))
      by (apply list_elem_of_filter; auto).
    rewrite Hf in Hcert. inversion Hcert.
  - split; [|discriminate]. intros _. exists cert.
    assert (Hcert : cert ∈ filter
              (fun cert => revoked_cert load online_serials cert = true)
              (extract_certificates text))
      by (rewrite Hf; left).
    apply list_elem_of_filter in Hcert as [Hrev Hin]. auto.
Qed.

(** C2: a certificate matched by an entry of the table is reported with
    the status of the entry and is counted as revoked (both counters go up
    by one) exactly when that status is the string ["REVOKED"]; with any
    other status nothing is counted or recorded.  A file is added to
    [files_to_delete] exactly when one of its certificates is matched by an
    entry whose status is ["REVOKED"]. *)
Theorem revoked_iff_status_is_REVOKED xml_file online_serials st
  (file_matches i : nat) (cert : str) (info : RevocationEntry) :
  status_info (process_certificate load (Str.strip cert) online_serials).1
  = Some info ->
  let next :=
    cert_step load xml_file online_serials (st, file_matches) (i, cert) in
  EStatus (status info) (reason info) ∈ console next.1 /\
  ((found_count next.1 = found_count st + 1 /\ next.2 = file_matches + 1)
   <-> status info = JString (lit "REVOKED")) /\
  (status info <> JString (lit "REVOKED") ->
   found_count next.1 = found_count st /\ next.2 = file_matches /\
   files_with_matches next.1 = files_with_matches st) /\
  files_to_delete next.1 = files_to_delete st /\
  (forall text st0,
     files_to_delete (process_file load online_serials st0 (xml_file, text))
     = files_to_delete st0 ++ [xml_file]
     <-> exists c info',
           c ∈ extract_certificates text /\
           status_info
             (process_certificate load (Str.strip c) online_serials).1
           = Some info' /\
           status info' = JString (lit "REVOKED")).
Proof using load.
  intros Hinfo next.
  assert (Hrev : revoked_cert load online_serials cert
                 = is_string REVOKED (status info)).
  { unfold revoked_cert. rewrite Hinfo. reflexivity. }
  pose proof (cert_step_counts xml_file online_serials st file_matches i cert)
    as Hcount.
  cbn zeta in Hcount. fold next in Hcount. rewrite Hrev in Hcount.
  destruct Hcount as (Hfound & Hfm & _ & Hdel & _).
  split; [|split; [|split; [|split]]].
  - subst next. unfold cert_step.
    pose proof (process_certificate_found online_serials (Str.strip cert))
      as Hf.
    destruct (process_certificate load (Str.strip cert) online_serials)
      as [ev errors].
    simpl in Hinfo, Hf |- *. rewrite Hf, Hinfo. simpl.
    destruct (is_string REVOKED (status info)); simpl; in_list.
  - rewrite <- (is_string_eq REVOKED).
    destruct (is_string REVOKED (status info)); split; intros; try lia; auto.
  - intros Hne.
    assert (Hno : is_string REVOKED (status info) = false).
    { destruct (is_string REVOKED (status info)) eqn:E; [|reflexivity].
      apply is_string_eq in E. contradiction. }
    rewrite Hno in Hfound, Hfm. split; [lia|]. split; [lia|].
    subst next. unfold cert_step.
    pose proof (process_certificate_found online_serials (Str.strip cert))
      as Hf.
    destruct (process_certificate load (Str.strip cert) online_serials)
      as [ev errors].
    simpl in Hinfo, Hf |- *. rewrite Hf, Hinfo. simpl. rewrite Hno.
    reflexivity.
  - exact Hdel.
  - intros text st0.
    pose proof (process_file_counts online_serials st0 xml_file text) as Hfile.
    cbn zeta in Hfile. destruct Hfile as (_ & _ & Hfiles & _).
    rewrite Hfiles.
    destruct (decide (revoked_in load online_serials text = 0)) as [Hz|Hnz].
    + split.
      * intros Habs. apply (f_equal length) in Habs.
        rewrite !length_app in Habs. simpl in Habs. lia.
      * intros (c & info' & Hin & Hc & Hst). exfalso.
        assert (Hnz : revoked_in load online_serials text <> 0).
        { apply revoked_in_nonzero. exists c. split; [exact Hin|].
          apply revoked_cert_spec. eauto. }
        contradiction.
    + split; [|reflexivity]. intros _.
      apply revoked_in_nonzero in Hnz as (c & Hin & Hc).
      apply revoked_cert_spec in Hc as (info' & Hc & Hst). eauto.
Qed.

(** *** The prompt *)

(** C3: in every run, the prompt is shown when there are files to delete;
    after an answer that is empty, [y] or [yes] once stripped and
    lowercased, the files removed are the candidates [os.remove] accepts;
    after any other answer no file is removed. *)
Theorem delete_only_when_confirmed reply directory answer :
  let st := main load os_remove reply directory answer in
  let confirm := Str.lower (Str.strip answer) in
  let yes := confirm = lit "" \/ confirm = lit "y" \/ confirm = lit "yes" in
  (files_to_delete st <> [] -> EPrompt ∈ console st) /\
  (yes -> removed st = filter (fun f => os_remove f) (files_to_delete st)) /\
  (~ yes -> removed st = []) /\
  (removed st <> [] -> yes).
Proof.
  intros st confirm yes.
  pose proof (main_fields reply directory answer) as Hmain.
  cbn zeta in Hmain. fold st in Hmain. fold confirm in Hmain.
  destruct Hmain as (_ & _ & _ & Hrem).
  pose proof (affirmative_spec confirm) as Hyes. fold yes in Hyes.
  split; [|split; [|split]].
  - subst st. unfold main.
    destruct (get_online_serial_list reply) as [online_serials errors].
    destruct (filter (fun file => is_xml file.1) directory) as [|file files].
    + simpl. intros H. destruct H. reflexivity.
    + cbn zeta.
      match goal with
      | |- context [confirm_and_delete os_remove answer ?s] =>
          pose proof (confirm_and_delete_fields answer s) as Hconf
      end.
      cbn zeta in Hconf. destruct Hconf as (_ & Hdel & _ & _ & _ & Hprompt).
      rewrite Hdel. exact Hprompt.
  - intros Hy. apply Hyes in Hy. rewrite Hrem, Hy. reflexivity.
  - intros Hn. destruct (affirmative confirm) eqn:E; [|exact Hrem].
    destruct Hn. apply Hyes. reflexivity.
  - intros Hne. destruct (affirmative confirm) eqn:E.
    + apply Hyes. reflexivity.
    + rewrite Hrem in Hne. destruct Hne. reflexivity.
Qed.

(** *** A failed download *)

Lemma fetch_failure_empty reply :
  fetch_failure reply -> get_online_serial_list reply = (∅, [EFetchError]).
Proof.
  unfold get_online_serial_list, download_entries, raise_for_status.
  intros [->|[(code & json & -> & Hcode)|(code & ->)]].
  - reflexivity.
  - assert (E : (400 <=? code) && (code <? 600) = true).
    { apply andb_true_iff. split;
        [apply Nat.leb_le | apply Nat.ltb_lt]; lia. }
    rewrite E. reflexivity.
  - destruct ((400 <=? code) && (code <? 600)); reflexivity.
Qed.

Lemma unmatched_in_empty_table cert_pem :
  found (process_certificate load cert_pem ∅).1 = false /\
  status_info (process_certificate load cert_pem ∅).1 = None.
Proof.
  unfold process_certificate. destruct (load cert_pem) as [cert|]; [|auto].
  unfold evaluate, lookup_status, bind, query, ret. simpl.
  rewrite lookup_empty.
  destruct (issuer_serial_of (issuer cert)) as [[|c key]|]; simpl;
    rewrite ?lookup_empty; auto.
Qed.

Lemma revoked_in_empty_table text : revoked_in load ∅ text = 0.
Proof.
  destruct (decide (revoked_in load ∅ text = 0)) as [Hz|Hnz]; [exact Hz|].
  apply revoked_in_nonzero in Hnz as (cert & _ & Hrev).
  unfold revoked_cert in Hrev.
  rewrite (proj2 (unmatched_in_empty_table (Str.strip cert))) in Hrev.
  discriminate.
Qed.

Lemma nothing_revoked_in_empty_table (files : list (str * str)) :
  sum_list (map (fun file => revoked_in load ∅ file.2) files) = 0 /\
  (filter (fun file => revoked_in load ∅ file.2 <> 0) files).*1 = [].
Proof.
  induction files as [|file files [IHsum IHdel]]; [split; reflexivity|].
  split.
  - simpl. rewrite revoked_in_empty_table, IHsum. reflexivity.
  - rewrite filter_cons, decide_False; [exact IHdel|].
    intros H. apply H. apply revoked_in_empty_table.
Qed.

(** C4, as the script has it: when the request raises, the status is a
    client or server error (400 to 599) or the body is not JSON, the table
    is empty and the error is printed; the run goes on over every XML file,
    every certificate is unmatched, no certificate is counted, no file is
    marked for deletion and none is removed. *)
Theorem fetch_failure_fails_open reply directory answer :
  fetch_failure reply ->
  let st := main load os_remove reply directory answer in
  get_online_serial_list reply = (∅, [EFetchError]) /\
  (forall cert_pem,
     found (process_certificate load cert_pem ∅).1 = false /\
     status_info (process_certificate load cert_pem ∅).1 = None) /\
  total_count st = length (filter (fun file => is_xml file.1) directory) /\
  found_count st = 0 /\
  files_to_delete st = [] /\
  removed st = [].
Proof.
  intros Hfail st.
  pose proof (fetch_failure_empty reply Hfail) as Hempty.
  pose proof (main_fields reply directory answer) as Hmain.
  cbn zeta in Hmain. fold st in Hmain. rewrite Hempty in Hmain.
  cbn [fst] in Hmain. destruct Hmain as (Hfound & Htotal & Hdel & Hrem).
  assert (Hnone : files_to_delete st = []).
  { rewrite Hdel. apply (proj2 (nothing_revoked_in_empty_table _)). }
  split; [exact Hempty|]. split; [apply unmatched_in_empty_table|].
  split; [exact Htotal|]. split; [|split; [exact Hnone|]].
  - rewrite Hfound. apply (proj1 (nothing_revoked_in_empty_table _)).
  - rewrite Hrem, Hnone. destruct (affirmative _); reflexivity.
Qed.

(** *** The final tally *)

(** The figures of the summary: the second is the number of files scanned
    less the number of revoked certificates, the third the number of
    revoked certificates, summed over the files. *)
Lemma final_results_count_certificates reply directory answer :
  let online_serials := (get_online_serial_list reply).1 in
  let xml_files := filter (fun file => is_xml file.1) directory in
  let revoked :=
    sum_list (map (fun file => revoked_in load online_serials file.2)
                xml_files) in
  xml_files <> [] ->
  EFinalResults (length xml_files)
    (Z.of_nat (length xml_files) - Z.of_nat revoked) revoked
  ∈ console (main load os_remove reply directory answer).
Proof.
  intros online_serials xml_files revoked Hxml.
  subst online_serials xml_files revoked. unfold main.
  destruct (get_online_serial_list reply) as [online_serials errors].
  cbn [fst].
  destruct (filter (fun file => is_xml file.1) directory)
    as [|file files] eqn:Hfiles; [congruence|].
  cbn zeta.
  set (st0 := print errors (print [EDownloading] initial)).
  pose proof (files_loop_counts online_serials (file :: files) st0) as Hloop.
  cbn zeta in Hloop. destruct Hloop as (Hfound & Htot & _ & _).
  set (st1 := foldl (process_file load online_serials) st0 (file :: files))
    in *.
  destruct (report_fields st1) as (_ & _ & more & Hcon).
  pose proof (confirm_and_delete_fields answer (report st1)) as Hconf.
  cbn zeta in Hconf. destruct Hconf as (_ & _ & _ & _ & (more' & Hcon') & _).
  rewrite Hcon', Hcon, Hfound, Htot. simpl. in_list.
Qed.

(** *** Files without certificates *)

Lemma NoDup_fst_unique {A B} (l : list (A * B)) (x : A) (y1 y2 : B) :
  NoDup l.*1 -> (x, y1) ∈ l -> (x, y2) ∈ l -> y1 = y2.
Proof.
  induction l as [|[a b] l IH]; intros Hnd H1 H2.
  - inversion H1.
  - simpl in Hnd. apply NoDup_cons in Hnd as [Hnotin Hnd].
    apply elem_of_cons in H1 as [E1|H1];
      apply elem_of_cons in H2 as [E2|H2]; auto.
    + congruence.
    + destruct Hnotin. apply list_elem_of_fmap. exists (x, y2).
      split; [simpl; congruence | exact H2].
    + destruct Hnotin. apply list_elem_of_fmap. exists (x, y1).
      split; [simpl; congruence | exact H1].
Qed.

Lemma cert_step_console xml_file online_serials acc item :
  exists more,
    console (cert_step load xml_file online_serials acc item).1
    = console acc.1 ++ more.
Proof.
  destruct acc as [st file_matches], item as [i cert]. unfold cert_step.
  destruct (process_certificate load (Str.strip cert) online_serials)
    as [ev errors].
  destruct (found ev), (status_info ev) as [info|]; simpl; eauto.
  destruct (is_string REVOKED (status info)); simpl;
    rewrite <- app_assoc; eauto.
Qed.

Lemma cert_loop_console xml_file online_serials items :
  forall acc, exists more,
    console (foldl (cert_step load xml_file online_serials) acc items).1
    = console acc.1 ++ more.
Proof.
  induction items as [|item items IH]; intros acc; simpl.
  - exists []. rewrite app_nil_r. reflexivity.
  - destruct (IH (cert_step load xml_file online_serials acc item))
      as [more Hmore].
    destruct (cert_step_console xml_file online_serials acc item)
      as [more' Hmore'].
    exists (more' ++ more). rewrite Hmore, Hmore', app_assoc. reflexivity.
Qed.

Lemma process_file_console online_serials st file :
  exists more,
    console (process_file load online_serials st file)
    = console st ++ EProcessing file.1 :: more.
Proof.
  destruct file as [xml_file text]. unfold process_file.
  destruct (extract_certificates text) as [|cert certs].
  - simpl. rewrite <- app_assoc. simpl. eauto.
  - destruct (cert_loop_console xml_file online_serials
                (enumerate1 (cert :: certs)) (begin_file xml_file st, 0))
      as [more Hmore].
    destruct (foldl _ _ _) as [st1 [|fm]]; simpl in Hmore |- *;
      rewrite Hmore, <- !app_assoc; simpl; eauto.
Qed.

Lemma files_loop_console online_serials files :
  forall st, exists more,
    console (foldl (process_file load online_serials) st files)
    = console st ++ more.
Proof.
  induction files as [|file files IH]; intros st; simpl.
  - exists []. rewrite app_nil_r. reflexivity.
  - destruct (IH (process_file load online_serials st file)) as [more Hmore].
    destruct (process_file_console online_serials st file) as [more' Hmore'].
    rewrite Hmore, Hmore', <- app_assoc. eauto.
Qed.

(** A file without certificate blocks prints two lines and changes no
    counter. *)
Lemma process_file_no_certificates online_serials st xml_file text :
  extract_certificates text = [] ->
  let st' := process_file load online_serials st (xml_file, text) in
  console st' = console st ++ [EProcessing xml_file; ENoCertificates] /\
  found_count st' = found_count st /\
  files_with_matches st' = files_with_matches st /\
  files_to_delete st' = files_to_delete st.
Proof.
  intros Hnone. unfold process_file. rewrite Hnone. simpl.
  rewrite <- app_assoc. repeat split.
Qed.

(** C9: a scanned file from which no certificate block is extracted
    prints [Processing] and [No certificates found] and nothing in between,
    counts and records nothing, and its name is neither in
    [files_to_delete] nor among the files removed at the end of the run. *)
Theorem empty_file_never_deleted reply directory answer
  (xml_file text : str) :
  NoDup directory.*1 ->
  (xml_file, text) ∈ directory ->
  is_xml xml_file = true ->
  extract_certificates text = [] ->
  let online_serials := (get_online_serial_list reply).1 in
  let final := main load os_remove reply directory answer in
  (forall st,
     let st' := process_file load online_serials st (xml_file, text) in
     console st' = console st ++ [EProcessing xml_file; ENoCertificates] /\
     found_count st' = found_count st /\
     files_with_matches st' = files_with_matches st /\
     files_to_delete st' = files_to_delete st) /\
  (exists before after,
     console final
     = before ++ [EProcessing xml_file; ENoCertificates] ++ after) /\
  (xml_file ∉ files_to_delete final) /\
  (xml_file ∉ removed final).
Proof.
  intros Hnd Hin Hxml Hnone online_serials final.
  pose proof (main_fields reply directory answer) as Hmain.
  cbn zeta in Hmain. fold final in Hmain. fold online_serials in Hmain.
  destruct Hmain as (_ & _ & Hdel & Hrem).
  assert (Hnot : xml_file ∉ files_to_delete final).
  { rewrite Hdel. intros Hmarked.
    apply list_elem_of_fmap in Hmarked as ([f text'] & Hf & Hmarked).
    simpl in Hf. subst f.
    apply list_elem_of_filter in Hmarked as [Hrev Hmarked].
    apply list_elem_of_filter in Hmarked as [_ Hmarked].
    assert (text' = text) by (eapply NoDup_fst_unique; eassumption).
    subst text'. apply Hrev. simpl. unfold revoked_in. rewrite Hnone.
    reflexivity. }
  split; [intros st; apply process_file_no_certificates; exact Hnone|].
  split; [|split; [exact Hnot|]].
  - assert (Hscanned : (xml_file, text)
                       ∈ filter (fun file => is_xml file.1) directory).
    { apply list_elem_of_filter. split; [|exact Hin].
      simpl. rewrite Hxml. exact I. }
    subst final. unfold main. fold online_serials.
    destruct (get_online_serial_list reply) as [table errors].
    cbn [fst] in online_serials. subst online_serials.
    destruct (filter (fun file => is_xml file.1) directory)
      as [|file files] eqn:Hfiles; [inversion Hscanned|].
    apply list_elem_of_split in Hscanned as (l1 & l2 & Hsplit).
    cbn zeta. rewrite Hsplit, foldl_app. cbn [foldl].
    set (st1 := foldl (process_file load table) _ l1).
    destruct (process_file_no_certificates table st1 xml_file text Hnone)
      as (Hcon & _).
    destruct (files_loop_console table l2
                (process_file load table st1 (xml_file, text)))
      as [more Hmore].
    set (st2 := foldl (process_file load table) _ l2) in *.
    destruct (report_fields st2) as (_ & _ & more' & Hrep).
    pose proof (confirm_and_delete_fields answer (report st2)) as Hconf.
    cbn zeta in Hconf. destruct Hconf as (_ & _ & _ & _ & (more'' & Hc) & _).
    rewrite Hc, Hrep, Hmore, Hcon.
    eexists (console st1), _. rewrite <- !app_assoc. reflexivity.
  - rewrite Hrem. destruct (affirmative _); [|inversion 1].
    intros Hremoved. apply list_elem_of_filter in Hremoved as [_ Hremoved].
    contradiction.
Qed.

End RunFacts.

(** ** The run on sample data *)

Lemma revoked_iff_status_is_REVOKED_witness :
  let next :=
    cert_step sample_loader (lit "k.xml") sample_table (initial, 0)
      (1, pem "AAAA") in
  status_info
    (process_certificate sample_loader (Str.strip (pem "AAAA")) sample_table).1
  = Some (entry "REVOKED" "KEY_COMPROMISE") /\
  found_count next.1 = 1 /\ next.2 = 1.
Proof.
  intros next.
  assert (Hinfo :
    status_info
      (process_certificate sample_loader (Str.strip (pem "AAAA"))
         sample_table).1
    = Some (entry "REVOKED" "KEY_COMPROMISE")) by (vm_compute; reflexivity).
  split; [exact Hinfo|].
  destruct (revoked_iff_status_is_REVOKED sample_loader (lit "k.xml")
              sample_table initial 0 1 (pem "AAAA") _ Hinfo)
    as (_ & Hiff & _).
  apply Hiff. reflexivity.
Defined.

Lemma fetch_failure_fails_open_witness :
  let st :=
    main sample_loader always_removable (Response 503 None)
      one_revoked_keybox (lit "y") in
  fetch_failure (Response 503 None) /\
  total_count st = 1 /\ files_to_delete st = [] /\ removed st = [].
Proof.
  intros st.
  assert (Hfail : fetch_failure (Response 503 None)).
  { right. left. exists 503, None. split; [reflexivity | lia]. }
  split; [exact Hfail|].
  destruct (fetch_failure_fails_open sample_loader always_removable
              (Response 503 None) one_revoked_keybox (lit "y") Hfail)
    as (_ & _ & Htotal & _ & Hdel & Hrem).
  split; [exact Htotal|]. split; [exact Hdel | exact Hrem].
Defined.

(** C4 as stated, at a status outside 200..299 that is no client or
    server error: [raise_for_status] lets a 300 response through, its body
    is decoded, the table is filled and the file is marked for deletion. *)
Lemma non_2xx_reply_fills_table :
  let reply := Response 300 (Some sample_json) in
  let st :=
    main sample_loader always_removable reply one_revoked_keybox (lit "n") in
  fetch_failure_any_non_2xx reply /\
  (get_online_serial_list reply).1 !! lit "1a2b"
  = Some (entry "REVOKED" "KEY_COMPROMISE") /\
  (get_online_serial_list reply).1 <> ∅ /\
  files_to_delete st = [lit "k.xml"].
Proof.
  intros reply st. split; [|split; [|split]].
  - right. left. exists 300, (Some sample_json).
    split; [reflexivity|]. unfold non_2xx. lia.
  - vm_compute. reflexivity.
  - intros Hempty.
    assert (H : (get_online_serial_list reply).1 !! lit "1a2b"
                = Some (entry "REVOKED" "KEY_COMPROMISE"))
      by (vm_compute; reflexivity).
    rewrite Hempty, lookup_empty in H. discriminate.
  - vm_compute. reflexivity.
Qed.

(** C6, on one file that holds two revoked certificates: one file is
    scanned and one is marked for deletion, yet the summary prints -1 valid
    and 2 revoked, the number of revoked certificates. *)
Theorem tally_counts_certificates_not_files :
  let st :=
    main sample_loader always_removable (Response 200 (Some sample_json))
      two_revoked_in_one_keybox (lit "n") in
  total_count st = 1 /\
  files_to_delete st = [lit "k.xml"] /\
  revoked_in sample_loader sample_table (keybox [pem "AAAA"; pem "AAAA"]) = 2 /\
  EFinalResults 1 (-1) 2 ∈ console st.
Proof.
  intros st. split; [|split; [|split]]; try (vm_compute; reflexivity).
  assert (E : console st =
              take 7 (console st) ++ EFinalResults 1 (-1) 2
                :: drop 8 (console st)) by (vm_compute; reflexivity).
  rewrite E. apply elem_of_app. right. left.
Qed.

Lemma empty_file_never_deleted_witness :
  let st :=
    main sample_loader always_removable (Response 200 (Some sample_json))
      empty_and_revoked (lit "y") in
  NoDup empty_and_revoked.*1 /\
  (lit "empty.xml", lit "<Keybox></Keybox>") ∈ empty_and_revoked /\
  is_xml (lit "empty.xml") = true /\
  extract_certificates (lit "<Keybox></Keybox>") = [] /\
  (lit "empty.xml" ∉ files_to_delete st) /\
  (lit "empty.xml" ∉ removed st) /\
  removed st = [lit "k.xml"].
Proof.
  intros st.
  assert (Hnd : NoDup empty_and_revoked.*1).
  { apply NoDup_cons. split; [|apply NoDup_singleton].
    intros H. apply list_elem_of_singleton in H. discriminate. }
  assert (Hin : (lit "empty.xml", lit "<Keybox></Keybox>")
                ∈ empty_and_revoked) by left.
  assert (Hxml : is_xml (lit "empty.xml") = true) by reflexivity.
  assert (Hnone : extract_certificates (lit "<Keybox></Keybox>") = [])
    by reflexivity.
  destruct (empty_file_never_deleted sample_loader always_removable
              (Response 200 (Some sample_json)) empty_and_revoked (lit "y")
              _ _ Hnd Hin Hxml Hnone)
    as (_ & _ & Hdel & Hrem).
  repeat split; auto.
Defined.

(** ** Worked examples *)

Example format_x_6699 : Hex.format_x 6699 = lit "1a2b".
Proof. reflexivity. Qed.

Example format_x_negative : Hex.format_x (-255) = lit "-ff".
Proof. reflexivity. Qed.

Example lower_mixed : Str.lower (lit "YeS 1A") = lit "yes 1a".
Proof. reflexivity. Qed.

Example strip_padded : Str.strip (lit "  y ") = lit "y".
Proof. reflexivity. Qed.

Example split_twice :
  Str.split (lit "ab") (lit "xabyabz") = [lit "x"; lit "y"; lit "z"].
Proof. reflexivity. Qed.

Example split_absent : Str.split (lit "ab") (lit "xyz") = [lit "xyz"].
Proof. reflexivity. Qed.

Example issuer_serial_normalised :
  issuer_serial_of (issuer cert_issued_by_1a2b) = Some (lit "1a2b").
Proof. reflexivity. Qed.

Example adjacent_blocks_kept_apart :
  extract_certificates (pem "AAAA" ++ pem "BBBB") = [pem "AAAA"; pem "BBBB"].
Proof. vm_compute. reflexivity. Qed.

Example commented_certificate_excluded :
  extract_certificates
    (lit "<!-- " ++ pem "AAAA" ++ lit " -->" ++ pem "BBBB")
  = [pem "BBBB"].
Proof. vm_compute. reflexivity. Qed.

Example text_after_chain_end_ignored :
  extract_certificates (keybox [pem "AAAA"] ++ pem "BBBB") = [pem "AAAA"].
Proof. vm_compute. reflexivity. Qed.

Example subject_entry_wins :
  status_info (evaluate cert_issued_by_1a2b both_keys_table)
  = Some (entry "VALID" "UNSPECIFIED").
Proof. vm_compute. reflexivity. Qed.

Example issuer_entry_as_fallback :
  status_info (evaluate cert_issued_by_1a2b sample_table)
  = Some (entry "REVOKED" "KEY_COMPROMISE").
Proof. vm_compute. reflexivity. Qed.

Example feed_decodes_to_sample_table :
  get_online_serial_list (Response 200 (Some sample_json))
  = (sample_table, []).
Proof. vm_compute. reflexivity. Qed.

Example lowercase_status_not_counted :
  revoked_in sample_loader lowercase_table (keybox [pem "AAAA"]) = 0 /\
  revoked_in sample_loader sample_table (keybox [pem "AAAA"]) = 1.
Proof. split; vm_compute; reflexivity. Qed.

Example one_revoked_of_one :
  let st :=
    main sample_loader always_removable (Response 200 (Some sample_json))
      one_revoked_keybox (lit "n") in
  files_to_delete st = [lit "k.xml"] /\
  (found_count st, total_count st) = (1, 1) /\
  removed st = [].
Proof. repeat split; vm_compute; reflexivity. Qed.

Example answer_yes_in_capitals :
  removed
    (main sample_loader always_removable (Response 200 (Some sample_json))
       one_revoked_keybox (lit " YES "))
  = [lit "k.xml"].
Proof. vm_compute. reflexivity. Qed.

Example answer_empty :
  removed
    (main sample_loader always_removable (Response 200 (Some sample_json))
       one_revoked_keybox (lit ""))
  = [lit "k.xml"].
Proof. vm_compute. reflexivity. Qed.

(** ** Start-up *)

(** The guarded imports of the [__main__] block fail only when a
    module-level import has failed before them: the install hints are
    never printed. *)
Lemma install_hint_unreachable (env : Packages) :
  module_imports env = None -> guarded_imports env = None.
Proof.
  unfold module_imports, guarded_imports.
  destruct (has_requests env), (has_colorama env), (has_cryptography env);
    simpl; congruence.
Qed.

Lemma missing_package_traceback (env : Packages) load os_remove reply
  directory answer :
  has_requests env && has_colorama env && has_cryptography env = false ->
  exists module,
    script env load os_remove reply directory answer
    = Exited (print [ETraceback module] initial) 1.
Proof.
  unfold script, module_imports.
  destruct (has_requests env), (has_colorama env), (has_cryptography env);
    simpl; intros H; try discriminate; eauto.
Qed.

(** On a directory whose files can be read and with a line at the prompt
    the call returns, in the state of [main]. *)
Lemma process_files_readable load online_serials files :
  forall st,
    process_files load online_serials st (readable files)
    = Returned (foldl (process_file load online_serials) st files).
Proof.
  induction files as [|[xml_file text] files IH]; intros st; [reflexivity|].
  simpl. apply IH.
Qed.

Lemma filter_readable directory :
  filter (fun file : str * option str => is_xml file.1) (readable directory)
  = readable (filter (fun file : str * str => is_xml file.1) directory).
Proof.
  induction directory as [|[name text] directory IH]; [reflexivity|].
  unfold readable in *. cbn [map fst snd]. rewrite !filter_cons. cbn [fst].
  destruct (decide (is_xml name)); cbn [map fst snd]; rewrite IH; reflexivity.
Qed.

Lemma confirm_or_raise_answered os_remove answer st :
  confirm_or_raise os_remove (Some answer) st
  = Returned (confirm_and_delete os_remove answer st).
Proof.
  unfold confirm_or_raise, confirm_and_delete.
  destruct (files_to_delete st); reflexivity.
Qed.

Lemma call_main_readable load os_remove reply directory answer :
  call_main load os_remove reply (readable directory) (Some answer)
  = Returned (main load os_remove reply directory answer).
Proof.
  unfold call_main, main.
  destruct (get_online_serial_list reply) as [online_serials errors].
  rewrite filter_readable.
  destruct (filter _ directory) as [|file files]; [reflexivity|].
  pose proof (process_files_readable load online_serials (file :: files)
                (print errors (print [EDownloading] initial))) as Hloop.
  change (readable (file :: files)) with
    ((file.1, Some file.2) :: readable files) in *.
  rewrite Hloop. apply confirm_or_raise_answered.
Qed.

(** C7, with each of the three packages missing in turn: the run ends
    with status 1 before the download and before any file is read, and
    what is printed is the traceback of the failed module-level import, not
    an install hint. *)
Theorem missing_package_prints_no_hint :
  let run env :=
    script env sample_loader always_removable
      (Response 200 (Some sample_json)) (readable one_revoked_keybox)
      (Some (lit "y")) in
  run only_requests_missing
  = Exited (print [ETraceback (lit "requests")] initial) 1 /\
  run only_colorama_missing
  = Exited (print [ETraceback (lit "colorama")] initial) 1 /\
  run only_cryptography_missing
  = Exited (print [ETraceback (lit "cryptography")] initial) 1 /\
  (forall env,
     (exists module, run env = Exited (print [ETraceback module] initial) 1)
     \/
     run env =
       Exited
         (main sample_loader always_removable
            (Response 200 (Some sample_json)) one_revoked_keybox (lit "y"))
         0).
Proof.
  intros run. repeat split.
  intros env. subst run. unfold script.
  destruct (module_imports env) as [module|] eqn:E; [left; eauto|right].
  rewrite (install_hint_unreachable env E), call_main_readable. reflexivity.
Qed.

(** * Further properties of the script *)

(** ** The decoded revocation list *)

Lemma lower_char_idempotent (c : ascii) :
  Str.lower_char (Str.lower_char c) = Str.lower_char c.
Proof. destruct c as [[] [] [] [] [] [] [] []]; reflexivity. Qed.

Lemma lower_idempotent (s : str) : Str.lower (Str.lower s) = Str.lower s.
Proof.
  unfold Str.lower. induction s as [|c s IH]; [reflexivity|].
  simpl. rewrite lower_char_idempotent, IH. reflexivity.
Qed.

Lemma add_entries_keys_lower (items : list (str * JValue)) :
  forall entries table,
    map_Forall (fun key _ => Str.lower key = key) entries ->
    add_entries items entries = Some table ->
    map_Forall (fun key _ => Str.lower key = key) table.
Proof.
  induction items as [|[serial v] items IH]; intros entries table Hall.
  - simpl. intros [= <-]. exact Hall.
  - destruct v; simpl; try discriminate.
    apply IH. apply map_Forall_insert_2; [apply lower_idempotent | exact Hall].
Qed.

(** Every key of the table the download returns is its own lowercase
    form, whatever the reply. *)
Theorem online_keys_lowercase (reply : Reply) :
  map_Forall (fun key _ => Str.lower key = key)
    (get_online_serial_list reply).1.
Proof.
  unfold get_online_serial_list.
  destruct (download_entries reply) as [table|] eqn:Hdl;
    [|apply map_Forall_empty].
  simpl. unfold download_entries in Hdl.
  destruct reply as [|code json]; [discriminate|].
  destruct (raise_for_status code); [discriminate|].
  destruct json as [[ |b|z|s|l|data]|]; try discriminate.
  destruct (dict_get (lit "entries") (JObject []) data); try discriminate.
  eapply add_entries_keys_lower; [apply map_Forall_empty | exact Hdl].
Qed.

Lemma add_entries_lookup (items : list (str * JValue)) :
  forall entries table key,
    add_entries items entries = Some table ->
    table !! key =
    match last_info key items with
    | Some (JObject info) => Some (entry_of info)
    | Some _ => None
    | None => entries !! key
    end.
Proof.
  induction items as [|[serial v] items IH]; intros entries table key.
  - simpl. intros [= <-]. reflexivity.
  - destruct v; simpl; try discriminate.
    intros Hadd. rewrite (IH _ _ key Hadd).
    destruct (last_info key items) as [later|]; [reflexivity|].
    destruct (decide (Str.lower serial = key)) as [<-|Hne].
    + rewrite lookup_insert_eq. reflexivity.
    + rewrite lookup_insert_ne by exact Hne. reflexivity.
Qed.

Lemma add_entries_objects (items : list (str * JValue)) :
  forall entries,
    is_Some (add_entries items entries) <->
    Forall (fun item => is_object item.2 = true) items.
Proof.
  induction items as [|[serial v] items IH]; intros entries.
  - simpl. split; [constructor | eauto].
  - destruct v; simpl;
      try (split; [intros [? [=]] | inversion 1; simpl in *; discriminate]).
    rewrite IH. split; [constructor; auto | inversion 1; auto].
Qed.

(** A feed whose entries are all objects: the table holds, under each
    lowercased serial, the entry of the last item with that serial in
    either case, with [UNKNOWN] and [UNSPECIFIED] for the fields the item
    lacks; it holds nothing under any other key, and nothing is printed. *)
Theorem online_lookup_last_wins (reply : Reply)
  (items : list (str * JValue)) (key : str) :
  feed_with reply items ->
  Forall (fun item => is_object item.2 = true) items ->
  (get_online_serial_list reply).2 = [] /\
  (get_online_serial_list reply).1 !! key =
  match last_info key items with
  | Some (JObject info) =>
      Some {| status :=
                dict_get (lit "status") (JString (lit "UNKNOWN")) info;
              reason :=
                dict_get (lit "reason") (JString (lit "UNSPECIFIED")) info |}
  | _ => None
  end.
Proof.
  intros (code & data & -> & Hcode & Hentries) Hobjects.
  unfold get_online_serial_list, download_entries.
  rewrite Hcode, Hentries.
  destruct (proj2 (add_entries_objects items ∅) Hobjects) as [table Htable].
  rewrite Htable. simpl. split; [reflexivity|].
  rewrite (add_entries_lookup _ _ _ key Htable), lookup_empty.
  destruct (last_info key items) as [[]|]; reflexivity.
Qed.

Lemma online_lookup_last_wins_witness :
  let reply := Response 200 (Some mixed_case_feed) in
  let table := (get_online_serial_list reply).1 in
  table !! lit "1a2b"
  = Some {| status := JString (lit "UNKNOWN");
            reason := JString (lit "SUPERSEDED") |} /\
  table !! lit "1A2B" = None /\
  table !! lit "00ff"
  = Some {| status := JString (lit "UNKNOWN");
            reason := JString (lit "UNSPECIFIED") |}.
Proof.
  intros reply table.
  assert (Hfeed : feed_with reply
            [(lit "1a2b", JObject [(lit "status", JString (lit "VALID"))]);
             (lit "1A2B", JObject [(lit "reason", JString (lit "SUPERSEDED"))]);
             (lit "00ff", JObject [])]).
  { exists 200, [(lit "entries",
                  JObject
                    [(lit "1a2b",
                      JObject [(lit "status", JString (lit "VALID"))]);
                     (lit "1A2B",
                      JObject [(lit "reason", JString (lit "SUPERSEDED"))]);
                     (lit "00ff", JObject [])])].
    repeat split. }
  assert (Hobjects : Forall (fun item : str * JValue => is_object item.2 = true)
            [(lit "1a2b", JObject [(lit "status", JString (lit "VALID"))]);
             (lit "1A2B", JObject [(lit "reason", JString (lit "SUPERSEDED"))]);
             (lit "00ff", JObject [])])
    by (repeat constructor).
  split; [|split].
  - exact (proj2 (online_lookup_last_wins reply _ (lit "1a2b") Hfeed Hobjects)).
  - exact (proj2 (online_lookup_last_wins reply _ (lit "1A2B") Hfeed Hobjects)).
  - exact (proj2 (online_lookup_last_wins reply _ (lit "00ff") Hfeed Hobjects)).
Defined.

(** One entry that is not an object spoils the whole feed: the table is
    empty, the entries before it included, and the error is printed. *)
Theorem malformed_entry_empties_table (reply : Reply)
  (items : list (str * JValue)) (serial : str) (v : JValue) :
  feed_with reply items ->
  (serial, v) ∈ items ->
  is_object v = false ->
  get_online_serial_list reply = (∅, [EFetchError]).
Proof.
  intros (code & data & -> & Hcode & Hentries) Hin Hv.
  unfold get_online_serial_list, download_entries.
  rewrite Hcode, Hentries.
  destruct (add_entries items ∅) as [table|] eqn:Htable; [|reflexivity].
  assert (Hsome : is_Some (add_entries items ∅)) by eauto.
  apply add_entries_objects in Hsome.
  rewrite Forall_forall in Hsome. specialize (Hsome _ Hin).
  simpl in Hsome. congruence.
Qed.

Lemma malformed_entry_empties_table_witness :
  get_online_serial_list (Response 200 (Some broken_feed))
  = (∅, [EFetchError]).
Proof.
  apply (malformed_entry_empties_table (Response 200 (Some broken_feed))
           [(lit "1a2b", JObject [(lit "status", JString (lit "REVOKED"))]);
            (lit "00ff", JString (lit "REVOKED"))]
           (lit "00ff") (JString (lit "REVOKED"))).
  - exists 200, [(lit "entries",
                  JObject
                    [(lit "1a2b",
                      JObject [(lit "status", JString (lit "REVOKED"))]);
                     (lit "00ff", JString (lit "REVOKED"))])].
    repeat split.
  - right. left.
  - reflexivity.
Defined.

(** ** Evaluating one certificate *)

Lemma subject_serial_hex_positive_witness :
  (0 < serial_number cert_1a2b)%Z /\
  subject_serial_hex cert_1a2b = lit "1a2b".
Proof.
  assert (Hpos : (0 < serial_number cert_1a2b)%Z) by reflexivity.
  split; [exact Hpos|].
  destruct (subject_serial_hex_positive cert_1a2b Hpos) as (d & ds & Heq & _).
  rewrite Heq. vm_compute in Heq. injection Heq as <- <-. reflexivity.
Defined.

Lemma digit_value_digit (d : N) :
  (d < 16)%N -> digit_value (Hex.digit d) = d.
Proof.
  intros Hd. unfold Hex.digit.
  assert (Hk : N.to_nat d < 16) by lia.
  rewrite <- (N2Nat.id d) at 2.
  revert Hk. generalize (N.to_nat d) as k. intros k Hk.
  do 16 (destruct k as [|k]; [reflexivity|]). lia.
Qed.

Lemma hex_value_of_N_from (fuel : nat) :
  forall n acc,
    n = 0%N \/ N.to_nat (N.log2 n) < fuel ->
    hex_value (Hex.of_N_from fuel n acc) = hex_value_from n acc.
Proof.
  induction fuel as [|fuel IH]; intros n acc Hfuel.
  - destruct Hfuel as [->|Hfuel]; [reflexivity | lia].
  - simpl. destruct (N.eqb_spec n 0%N) as [->|Hn]; [reflexivity|].
    destruct Hfuel as [?|Hfuel]; [contradiction|].
    rewrite IH.
    + unfold hex_value_from. simpl. f_equal.
      rewrite digit_value_digit by (apply N.mod_lt; discriminate).
      symmetry. apply N.div_mod. discriminate.
    + destruct (N.eq_dec (n / 16)%N 0%N) as [Hq|Hq]; [left; exact Hq|].
      right. pose proof (log2_div16 n Hq). lia.
Qed.

Lemma subject_serial_hex_pos (cert : Certificate) (p : positive) :
  serial_number cert = Zpos p ->
  subject_serial_hex cert = Hex.of_N (Npos p).
Proof.
  intros Hp. unfold subject_serial_hex. rewrite Hp.
  unfold Hex.format_x, Hex.of_N.
  destruct (N.eqb_spec (N.pos p) 0%N) as [?|_]; [discriminate|].
  destruct (of_N_from_shape (S (N.to_nat (N.log2 (N.pos p)))) (N.pos p) [])
    as (d & ds & Heq & Hd & _ & Hlower); [discriminate | lia |].
  rewrite Heq, app_nil_r, Hlower.
  unfold Str.lstrip. apply drop_while_head.
  simpl. rewrite orb_false_r.
  destruct (Str.eqb_char d "0") eqn:E; [|reflexivity].
  apply eqb_char_eq in E. contradiction.
Qed.

(** The subject key of a certificate with a serial number that is not
    negative reads back as that number, so two such certificates with the
    same key have the same serial number. *)
Theorem subject_serial_hex_reads_back (cert other : Certificate) :
  (0 <= serial_number cert)%Z ->
  (0 <= serial_number other)%Z ->
  hex_value (subject_serial_hex cert) = Z.to_N (serial_number cert) /\
  (subject_serial_hex cert = subject_serial_hex other ->
   serial_number cert = serial_number other).
Proof.
  assert (Hback : forall c, (0 <= serial_number c)%Z ->
            hex_value (subject_serial_hex c) = Z.to_N (serial_number c)).
  { intros c Hc. destruct (serial_number c) as [|p|p] eqn:Hs; [| |lia].
    - unfold subject_serial_hex. rewrite Hs. reflexivity.
    - rewrite (subject_serial_hex_pos c p Hs). unfold Hex.of_N.
      destruct (N.eqb_spec (N.pos p) 0%N) as [?|_]; [discriminate|].
      rewrite hex_value_of_N_from by (right; lia). reflexivity. }
  intros Hc Ho. split; [apply Hback; exact Hc|].
  intros Hsame.
  pose proof (Hback cert Hc) as H1. pose proof (Hback other Ho) as H2.
  rewrite Hsame in H1. lia.
Qed.

Lemma subject_serial_hex_reads_back_witness :
  hex_value (subject_serial_hex cert_1a2b) = 6699%N.
Proof.
  assert (Hpos : (0 <= serial_number cert_1a2b)%Z) by (simpl; lia).
  exact (proj1 (subject_serial_hex_reads_back cert_1a2b cert_1a2b Hpos Hpos)).
Defined.

(** The issuer serial, when there is one, is the lowercased value of the
    first serial-number attribute with everything but [0-9a-f] removed:
    it holds lowercase hexadecimal digits only. *)
Theorem issuer_serial_is_lower_hex (cert : Certificate)
  (online_serials : gmap str RevocationEntry) (s : str) :
  issuer_serial (evaluate cert online_serials) = Some s ->
  forallb Hex.is_lower_hex s = true /\
  exists attr,
    serial_attribute (issuer cert) = Some attr /\
    s = filter (fun c => Hex.is_lower_hex c = true) (Str.lower (value attr)).
Proof.
  unfold evaluate. simpl. rewrite issuer_serial_of_attribute.
  destruct (serial_attribute (issuer cert)) as [attr|]; [|discriminate].
  simpl. intros [= <-]. split; [|eauto].
  induction (Str.lower (value attr)) as [|c l IH]; [reflexivity|].
  rewrite filter_cons. destruct (Hex.is_lower_hex c) eqn:Hc.
  - rewrite decide_True by reflexivity. simpl. rewrite Hc. exact IH.
  - rewrite decide_False by discriminate. exact IH.
Qed.

Lemma issuer_serial_is_lower_hex_witness :
  issuer_serial (evaluate cert_issued_by_1a2b ∅) = Some (lit "1a2b") /\
  forallb Hex.is_lower_hex (lit "1a2b") = true.
Proof.
  assert (H : issuer_serial (evaluate cert_issued_by_1a2b ∅)
              = Some (lit "1a2b")) by reflexivity.
  split; [exact H|].
  exact (proj1 (issuer_serial_is_lower_hex cert_issued_by_1a2b ∅ _ H)).
Defined.

(** A parsed certificate is found exactly when the table holds its
    subject key, or holds its issuer serial and that serial is not empty;
    what is returned is then the entry under the subject key if there is
    one and the entry under the issuer serial otherwise. *)
Theorem found_iff_key_present (cert : Certificate)
  (online_serials : gmap str RevocationEntry) :
  let subject := subject_serial_hex cert in
  let ev := evaluate cert online_serials in
  (found ev = true <->
   is_Some (online_serials !! subject) \/
   exists key, issuer_serial ev = Some key /\ key <> [] /\
               is_Some (online_serials !! key)) /\
  (found ev = true <-> is_Some (status_info ev)) /\
  (forall info, status_info ev = Some info ->
     online_serials !! subject = Some info \/
     (online_serials !! subject = None /\
      exists key, issuer_serial ev = Some key /\ key <> [] /\
                  online_serials !! key = Some info)).
Proof.
  intros subject ev. subst ev.
  unfold evaluate, lookup_status, bind, query, ret. fold subject. simpl.
  rewrite bool_decide_eq_true.
  destruct (online_serials !! subject) as [info|] eqn:Hsub; simpl.
  - split; [|split]; [split; eauto | reflexivity | intros ? [= <-]; auto].
  - destruct (issuer_serial_of (issuer cert)) as [[|c key]|]; simpl.
    + split; [|split]; [|reflexivity|intros ? [=]].
      split; [intros [? [=]]|].
      intros [[? [=]]|(key & [= <-] & Hne & _)]. congruence.
    + split; [|split]; [|reflexivity|].
      * split.
        -- intros Hsome. right. exists (c :: key). auto.
        -- intros [[? [=]]|(k & [= <-] & _ & Hsome)]. exact Hsome.
      * intros info Hinfo. right. split; [reflexivity|].
        exists (c :: key). auto.
    + split; [|split]; [|reflexivity|intros ? [=]].
      split; [intros [? [=]]|].
      intros [[? [=]]|(key & [=] & _)].
Qed.

(** ** The run as a whole *)

Lemma sublist_fmap_fst {A B} (l1 l2 : list (A * B)) :
  l1 `sublist_of` l2 -> l1.*1 `sublist_of` l2.*1.
Proof.
  induction 1 as [|x l1 l2 _ IH|x l1 l2 _ IH]; simpl.
  - constructor.
  - apply sublist_skip. exact IH.
  - apply sublist_cons. exact IH.
Qed.

Section WholeRun.

Variable load : str -> option Certificate.
Variable os_remove : str -> bool.

Implicit Types (st : State) (online_serials : gmap str RevocationEntry).

Lemma unparsed_not_revoked online_serials (cert : str) :
  load (Str.strip cert) = None -> revoked_cert load online_serials cert = false.
Proof.
  intros Hnone. unfold revoked_cert, process_certificate. rewrite Hnone.
  reflexivity.
Qed.

(** A block the parser rejects prints the error and a certificate line
    with [N/A] for both serials and changes nothing else; the number of
    matches the loop over a file ends with is the same as without the
    block, wherever it stands. *)
Theorem unparsed_block_skipped xml_file online_serials st
  (file_matches i : nat) (bad : str) (before after : list str) :
  load (Str.strip bad) = None ->
  cert_step load xml_file online_serials (st, file_matches) (i, bad)
  = (print [ECertificateError; ECertificate i (lit "N/A") (lit "N/A")] st,
     file_matches) /\
  forall st0,
    (foldl (cert_step load xml_file online_serials) (st0, 0)
       (enumerate1 (before ++ bad :: after))).2
    = (foldl (cert_step load xml_file online_serials) (st0, 0)
         (enumerate1 (before ++ after))).2.
Proof.
  intros Hnone. split.
  - unfold cert_step, process_certificate. rewrite Hnone. reflexivity.
  - intros st0. unfold enumerate1.
    destruct (cert_loop_counts load xml_file online_serials
                (before ++ bad :: after) 1 st0 0) as (_ & -> & _).
    destruct (cert_loop_counts load xml_file online_serials
                (before ++ after) 1 st0 0) as (_ & -> & _).
    rewrite !filter_app, filter_cons.
    rewrite decide_False; [reflexivity|].
    rewrite (unparsed_not_revoked online_serials bad Hnone). discriminate.
Qed.

(** Without any [.xml] file in the directory the run prints the download
    line, the download error if there is one, and the no-files line, and
    ends there: nothing is counted, asked or removed. *)
Theorem no_xml_files_run reply directory answer :
  Forall (fun file : str * str => is_xml file.1 = false) directory ->
  let st := main load os_remove reply directory answer in
  console st
  = EDownloading :: (get_online_serial_list reply).2 ++ [ENoXmlFiles] /\
  total_count st = 0 /\
  files_to_delete st = [] /\
  removed st = [].
Proof.
  intros Hnone st. subst st. unfold main.
  destruct (get_online_serial_list reply) as [online_serials errors].
  assert (Hfilter : filter (fun file : str * str => is_xml file.1) directory
                    = []).
  { induction Hnone as [|file files Hfile _ IH]; [reflexivity|].
    rewrite filter_cons, decide_False; [exact IH|].
    rewrite Hfile. intros []. }
  rewrite Hfilter. repeat split.
Qed.

(** A file is removed only if [os.remove] succeeded on it, it is among the
    files to delete, and it is an [.xml] file of the directory in which a
    certificate has a [REVOKED] entry. *)
Theorem only_flagged_xml_files_removed reply directory answer
  (file_name : str) :
  file_name ∈ removed (main load os_remove reply directory answer) ->
  os_remove file_name = true /\
  file_name ∈ files_to_delete (main load os_remove reply directory answer) /\
  exists text cert info,
    (file_name, text) ∈ directory /\
    is_xml file_name = true /\
    cert ∈ extract_certificates text /\
    status_info
      (process_certificate load (Str.strip cert)
         (get_online_serial_list reply).1).1
    = Some info /\
    status info = JString (lit "REVOKED").
Proof.
  intros Hremoved.
  destruct (main_fields load os_remove reply directory answer)
    as (_ & _ & Hdel & Hrem).
  rewrite Hrem in Hremoved.
  destruct (affirmative (Str.lower (Str.strip answer)));
    [|inversion Hremoved].
  apply list_elem_of_filter in Hremoved as [Hok Hin].
  split; [apply Is_true_true; exact Hok|]. split; [exact Hin|].
  rewrite Hdel in Hin.
  apply list_elem_of_fmap in Hin as ([f text] & Hf & Hin).
  simpl in Hf. subst f.
  apply list_elem_of_filter in Hin as [Hrev Hin].
  apply list_elem_of_filter in Hin as [Hxml Hin].
  simpl in Hrev, Hxml.
  apply (revoked_in_nonzero load) in Hrev as (cert & Hcert & Hrev).
  apply (revoked_cert_spec load) in Hrev as (info & Hinfo & Hstatus).
  exists text, cert, info.
  split; [exact Hin|]. split; [apply Is_true_true; exact Hxml|].
  split; [exact Hcert|]. split; [exact Hinfo | exact Hstatus].
Qed.

(** The files to delete are listed in directory order, and the files
    removed in the order of that list; a directory without repeated names
    gives lists without repetition. *)
Theorem deletion_lists_follow_directory reply directory answer :
  let st := main load os_remove reply directory answer in
  files_to_delete st `sublist_of` directory.*1 /\
  removed st `sublist_of` files_to_delete st /\
  (NoDup directory.*1 -> NoDup (files_to_delete st) /\ NoDup (removed st)).
Proof.
  intros st.
  destruct (main_fields load os_remove reply directory answer)
    as (_ & _ & Hdel & Hrem).
  fold st in Hdel, Hrem.
  assert (Hsub : files_to_delete st `sublist_of` directory.*1).
  { rewrite Hdel. apply sublist_fmap_fst.
    etransitivity; apply sublist_filter. }
  assert (Hsub' : removed st `sublist_of` files_to_delete st).
  { rewrite Hrem. destruct (affirmative _);
      [apply sublist_filter | apply sublist_nil_l]. }
  split; [exact Hsub|]. split; [exact Hsub'|].
  intros Hnd.
  assert (Hnd' : NoDup (files_to_delete st))
    by (eapply sublist_NoDup; eassumption).
  split; [exact Hnd'|]. eapply sublist_NoDup; eassumption.
Qed.

Lemma delete_loop_count files :
  forall st deleted_count,
    (foldl (delete_step os_remove) (st, deleted_count) files).2
    = deleted_count + length (filter (fun f => os_remove f) files).
Proof.
  induction files as [|f files IH]; intros st deleted_count.
  - simpl. lia.
  - cbn [foldl]. rewrite filter_cons. unfold delete_step at 2.
    destruct (os_remove f).
    + rewrite IH, decide_True by exact I. simpl. lia.
    + rewrite IH, decide_False by (intros []). reflexivity.
Qed.

Lemma confirm_and_delete_last answer st :
  files_to_delete st <> [] ->
  last (console (confirm_and_delete os_remove answer st))
  = Some (if affirmative (Str.lower (Str.strip answer))
          then ETotalDeleted
                 (length (filter (fun f => os_remove f) (files_to_delete st)))
          else ECancelled).
Proof.
  intros Hne. unfold confirm_and_delete.
  destruct (files_to_delete st) as [|f files] eqn:Hfiles; [congruence|].
  cbn zeta. set (shown := print _ st).
  destruct (affirmative (Str.lower (Str.strip answer))).
  - pose proof (delete_loop_count (files_to_delete shown)
                  (print [EDeleting] shown) 0) as Hcount.
    destruct (foldl (delete_step os_remove) (print [EDeleting] shown, 0)
                (files_to_delete shown)) as [st1 n1].
    simpl in Hcount. rewrite Hfiles in Hcount. subst n1.
    simpl. apply last_snoc.
  - simpl. apply last_snoc.
Qed.

(** When there are files to delete, the last line of the run is the
    total of files deleted, equal to the number of files removed, after an
    affirmative answer, and the cancellation notice after any other. *)
Theorem run_ends_with_deleted_total reply directory answer :
  let st := main load os_remove reply directory answer in
  files_to_delete st <> [] ->
  last (console st)
  = Some (if affirmative (Str.lower (Str.strip answer))
          then ETotalDeleted (length (removed st))
          else ECancelled).
Proof.
  intros st Hne.
  destruct (main_fields load os_remove reply directory answer)
    as (_ & _ & _ & Hrem).
  fold st in Hrem. rewrite Hrem.
  subst st. unfold main in *.
  destruct (get_online_serial_list reply) as [online_serials errors].
  destruct (filter (fun file : str * str => is_xml file.1) directory)
    as [|file files]; [simpl in Hne; congruence|].
  cbn zeta in *.
  match goal with
  | |- context [confirm_and_delete os_remove answer ?s] =>
      destruct (confirm_and_delete_fields os_remove answer s)
        as (_ & Hdel & _);
      rewrite Hdel in *;
      rewrite (confirm_and_delete_last answer s Hne)
  end.
  destruct (affirmative _); reflexivity.
Qed.

End WholeRun.

(** ** What is recorded *)

Lemma defaultdict_append_recorded (xml_file : str) (m : Match)
  (d : list (str * list Match)) :
  sum_list (map (fun fm : str * list Match => length fm.2)
              (defaultdict_append xml_file m d))
  = S (sum_list (map (fun fm : str * list Match => length fm.2) d)).
Proof.
  induction d as [|[k ms] d IH]; [reflexivity|].
  simpl. destruct (decide (k = xml_file)); simpl.
  - rewrite length_app. simpl. lia.
  - rewrite IH. lia.
Qed.

Lemma defaultdict_append_Forall (P : Match -> Prop) (xml_file : str)
  (m : Match) (d : list (str * list Match)) :
  P m ->
  Forall (fun fm : str * list Match => Forall P fm.2) d ->
  Forall (fun fm : str * list Match => Forall P fm.2)
    (defaultdict_append xml_file m d).
Proof.
  intros Hm. induction 1 as [|[k ms] d Hk Hd IH]; simpl.
  - repeat constructor. exact Hm.
  - destruct (decide (k = xml_file)); constructor; auto.
    simpl in *. apply Forall_app. split; [exact Hk|].
    constructor; [exact Hm | constructor].
Qed.

Lemma records_consistent_same (st st' : State) :
  found_count st' = found_count st ->
  files_with_matches st' = files_with_matches st ->
  records_consistent st -> records_consistent st'.
Proof.
  unfold records_consistent, recorded, all_recorded_revoked.
  intros -> ->. auto.
Qed.

Section Records.

Variable load : str -> option Certificate.
Variable os_remove : str -> bool.

Lemma cert_step_records xml_file online_serials acc item :
  records_consistent acc.1 ->
  records_consistent (cert_step load xml_file online_serials acc item).1.
Proof.
  destruct acc as [st file_matches], item as [i cert]. unfold cert_step.
  destruct (process_certificate load (Str.strip cert) online_serials)
    as [ev errors].
  simpl. intros Hst.
  destruct (found ev), (status_info ev) as [info|];
    try (eapply records_consistent_same; [| |exact Hst]; reflexivity).
  destruct (is_string REVOKED (status info)) eqn:Hrev;
    [|eapply records_consistent_same; [| |exact Hst]; reflexivity].
  apply is_string_eq in Hrev. destruct Hst as [Hcount Hall].
  split.
  - unfold recorded in *. simpl.
    rewrite defaultdict_append_recorded, Hcount. lia.
  - unfold all_recorded_revoked in *. simpl.
    apply defaultdict_append_Forall; [exact Hrev | exact Hall].
Qed.

Lemma cert_loop_records xml_file online_serials items :
  forall acc,
    records_consistent acc.1 ->
    records_consistent
      (foldl (cert_step load xml_file online_serials) acc items).1.
Proof.
  induction items as [|item items IH]; intros acc Hacc; [exact Hacc|].
  simpl. apply IH. apply cert_step_records. exact Hacc.
Qed.

Lemma process_file_records online_serials st file :
  records_consistent st ->
  records_consistent (process_file load online_serials st file).
Proof.
  intros Hst. destruct file as [xml_file text]. unfold process_file.
  assert (Hbegin : records_consistent (begin_file xml_file st))
    by (eapply records_consistent_same; [| |exact Hst]; reflexivity).
  destruct (extract_certificates text) as [|cert certs].
  - eapply records_consistent_same; [| |exact Hbegin]; reflexivity.
  - pose proof (cert_loop_records xml_file online_serials
                  (enumerate1 (cert :: certs)) (begin_file xml_file st, 0)
                  Hbegin) as Hloop.
    destruct (foldl _ _ _) as [st1 [|fm]]; [exact Hloop|].
    eapply records_consistent_same; [| |exact Hloop]; reflexivity.
Qed.

Lemma files_loop_records online_serials files :
  forall st,
    records_consistent st ->
    records_consistent (foldl (process_file load online_serials) st files).
Proof.
  induction files as [|file files IH]; intros st Hst; [exact Hst|].
  simpl. apply IH. apply process_file_records. exact Hst.
Qed.

Lemma delete_loop_records files :
  forall acc,
    records_consistent acc.1 ->
    records_consistent (foldl (delete_step os_remove) acc files).1.
Proof.
  induction files as [|f files IH]; intros [st n] Hst; [exact Hst|].
  simpl. apply IH. destruct (os_remove f); simpl;
    (eapply records_consistent_same; [| |exact Hst]; reflexivity).
Qed.

(** At the end of every run the matches recorded in [files_with_matches]
    are as many as [found_count], and each has the status ["REVOKED"]. *)
Theorem recorded_matches_are_the_counted reply directory answer :
  let st := main load os_remove reply directory answer in
  sum_list (map (fun fm : str * list Match => length fm.2)
              (files_with_matches st))
  = found_count st /\
  Forall (fun fm : str * list Match =>
            Forall (fun m => match_status m = JString (lit "REVOKED")) fm.2)
    (files_with_matches st).
Proof.
  intros st. change (records_consistent st). subst st. unfold main.
  destruct (get_online_serial_list reply) as [online_serials errors].
  assert (Hstart : records_consistent
                     (print errors (print [EDownloading] initial))).
  { split; [reflexivity | constructor]. }
  destruct (filter (fun file : str * str => is_xml file.1) directory)
    as [|file files].
  { eapply records_consistent_same; [| |exact Hstart]; reflexivity. }
  cbn zeta.
  pose proof (files_loop_records online_serials (file :: files) _ Hstart)
    as Hloop.
  set (st1 := foldl (process_file load online_serials) _ (file :: files))
    in *.
  assert (Hreport : records_consistent (report st1)).
  { unfold report. simpl. destruct (files_with_matches st1);
      (eapply records_consistent_same; [| |exact Hloop]; reflexivity). }
  unfold confirm_and_delete.
  destruct (files_to_delete (report st1)) as [|f fs]; [exact Hreport|].
  cbn zeta. set (shown := print _ (report st1)).
  assert (Hshown : records_consistent shown)
    by (eapply records_consistent_same; [| |exact Hreport]; reflexivity).
  destruct (affirmative _).
  - pose proof (delete_loop_records (files_to_delete shown)
                  (print [EDeleting] shown, 0)) as Hdel.
    destruct (foldl (delete_step os_remove) _ _) as [st2 n2].
    eapply records_consistent_same; [| |apply Hdel]; try reflexivity.
    eapply records_consistent_same; [| |exact Hshown]; reflexivity.
  - eapply records_consistent_same; [| |exact Hshown]; reflexivity.
Qed.

End Records.

(** ** The further properties on sample data *)

Lemma unparsed_block_skipped_witness :
  sample_loader (Str.strip garbage_block) = None /\
  (foldl (cert_step sample_loader (lit "k.xml") sample_table) (initial, 0)
     (enumerate1 [pem "AAAA"; garbage_block; pem "AAAA"])).2 = 2.
Proof.
  assert (Hnone : sample_loader (Str.strip garbage_block) = None)
    by reflexivity.
  split; [exact Hnone|].
  destruct (unparsed_block_skipped sample_loader (lit "k.xml") sample_table
              initial 0 2 garbage_block [pem "AAAA"] [pem "AAAA"] Hnone)
    as [_ Hsame].
  etransitivity; [exact (Hsame initial)|]. vm_compute. reflexivity.
Defined.

Lemma no_xml_files_run_witness :
  console
    (main sample_loader always_removable RequestFailed
       [(lit "notes.txt", keybox [pem "AAAA"])] (lit "y"))
  = [EDownloading; EFetchError; ENoXmlFiles].
Proof.
  assert (Hnone : Forall (fun file : str * str => is_xml file.1 = false)
                    [(lit "notes.txt", keybox [pem "AAAA"])])
    by (repeat constructor).
  exact (proj1 (no_xml_files_run sample_loader always_removable RequestFailed
                  _ (lit "y") Hnone)).
Defined.

Lemma only_flagged_xml_files_removed_witness :
  let st :=
    main sample_loader always_removable (Response 200 (Some sample_json))
      two_revoked_keyboxes (lit "y") in
  removed st = [lit "a.xml"; lit "B.XML"] /\
  always_removable (lit "B.XML") = true /\
  lit "B.XML" ∈ files_to_delete st.
Proof.
  intros st.
  assert (Hrem : removed st = [lit "a.xml"; lit "B.XML"])
    by (vm_compute; reflexivity).
  assert (Hin : lit "B.XML" ∈ removed st) by (rewrite Hrem; right; left).
  destruct (only_flagged_xml_files_removed sample_loader always_removable
              (Response 200 (Some sample_json)) two_revoked_keyboxes
              (lit "y") (lit "B.XML") Hin) as (Hok & Hdel & _).
  split; [exact Hrem|]. split; [exact Hok | exact Hdel].
Defined.

Lemma run_ends_with_deleted_total_witness :
  let st :=
    main sample_loader (removable_but (lit "a.xml"))
      (Response 200 (Some sample_json)) two_revoked_keyboxes (lit "Yes") in
  files_to_delete st = [lit "a.xml"; lit "B.XML"] /\
  removed st = [lit "B.XML"] /\
  last (console st) = Some (ETotalDeleted 1).
Proof.
  intros st.
  assert (Hdel : files_to_delete st = [lit "a.xml"; lit "B.XML"])
    by (vm_compute; reflexivity).
  assert (Hrem : removed st = [lit "B.XML"]) by (vm_compute; reflexivity).
  assert (Hne : files_to_delete st <> []) by (rewrite Hdel; discriminate).
  split; [exact Hdel|]. split; [exact Hrem|].
  pose proof (run_ends_with_deleted_total sample_loader
                (removable_but (lit "a.xml"))
                (Response 200 (Some sample_json))
                two_revoked_keyboxes (lit "Yes") Hne) as Hlast.
  cbn zeta in Hlast. fold st in Hlast. rewrite Hlast, Hrem. reflexivity.
Defined.

Lemma final_results_count_certificates_witness :
  EFinalResults 2 0 2
  ∈ console
      (main sample_loader always_removable (Response 200 (Some sample_json))
         two_revoked_keyboxes (lit "n")).
Proof.
  assert (Hxml : filter (fun file : str * str => is_xml file.1)
                   two_revoked_keyboxes <> []) by (vm_compute; discriminate).
  exact (final_results_count_certificates sample_loader always_removable
           (Response 200 (Some sample_json)) two_revoked_keyboxes (lit "n")
           Hxml).
Defined.

(** ** The three stages of the extraction, one by one *)

Lemma occurs_at_app_l (marker a b : str) (i : nat) :
  i + length marker <= length a ->
  Str.occurs_at marker (a ++ b) i <-> Str.occurs_at marker a i.
Proof.
  intros Hlen. unfold Str.occurs_at.
  rewrite startswith_drop_app by exact Hlen. reflexivity.
Qed.

Lemma occurs_at_length (marker s : str) (i : nat) :
  Str.occurs_at marker s i ->
  s = take i s ++ marker ++ drop (i + length marker) s.
Proof.
  unfold Str.occurs_at. intros H. apply startswith_app in H as [r Hr].
  rewrite <- (take_drop i s) at 1. f_equal.
  rewrite Hr. f_equal. rewrite <- drop_drop, Hr, drop_app_length. reflexivity.
Qed.

Lemma truncated_unique (marker raw t1 t2 : str) :
  truncated_at_first marker raw t1 ->
  truncated_at_first marker raw t2 ->
  t1 = t2.
Proof.
  intros [Hno1 Hcase1] [Hno2 Hcase2].
  assert (Hocc : forall t rest, raw = t ++ marker ++ rest ->
                   Str.occurs_at marker raw (length t)).
  { intros t rest ->. unfold Str.occurs_at.
    rewrite drop_app_length. apply startswith_self_app. }
  destruct Hcase1 as [[-> Hall1]|[r1 E1]], Hcase2 as [[-> Hall2]|[r2 E2]].
  - reflexivity.
  - destruct (Hall1 _ (Hocc _ _ E2)).
  - destruct (Hall2 _ (Hocc _ _ E1)).
  - pose proof (Hocc _ _ E1) as O1. pose proof (Hocc _ _ E2) as O2.
    assert (Hlen : length t1 = length t2).
    { destruct (Nat.lt_trichotomy (length t1) (length t2)) as [H|[H|H]];
        [destruct (Hno2 _ H O1) | exact H | destruct (Hno1 _ H O2)]. }
    rewrite <- (take_app_length t1 (marker ++ r1)), <- E1.
    rewrite <- (take_app_length t2 (marker ++ r2)), <- E2.
    rewrite Hlen. reflexivity.
Qed.

Lemma truncated_shorter (marker head rest t : str) :
  truncated_at_first marker (head ++ marker ++ rest) t ->
  truncated_at_first marker (head ++ marker) t.
Proof.
  intros [Hno Hcase].
  assert (Hhead : Str.occurs_at marker (head ++ marker ++ rest) (length head)).
  { unfold Str.occurs_at. rewrite drop_app_length. apply startswith_self_app. }
  destruct Hcase as [[-> Hall]|[r E]]; [destruct (Hall _ Hhead)|].
  assert (Hlen : length t <= length head).
  { destruct (Nat.le_gt_cases (length t) (length head)) as [H|H];
      [exact H | destruct (Hno _ H Hhead)]. }
  assert (Ht : Str.occurs_at marker (head ++ marker) (length t)).
  { apply (occurs_at_app_l marker (head ++ marker) rest).
    - rewrite length_app. lia.
    - rewrite <- app_assoc, E. unfold Str.occurs_at.
      rewrite drop_app_length. apply startswith_self_app. }
  assert (Etake : take (length t) (head ++ marker) = t).
  { transitivity (take (length t) ((head ++ marker) ++ rest)).
    - rewrite (take_app_le (head ++ marker)); [reflexivity|].
      rewrite length_app. lia.
    - rewrite <- app_assoc, E. apply take_app_length. }
  split.
  - intros i Hi Hocc. apply (Hno i Hi).
    rewrite app_assoc. apply occurs_at_app_l; [|exact Hocc].
    rewrite length_app. lia.
  - right. apply occurs_at_length in Ht. rewrite Etake in Ht. eauto.
Qed.

(** Whatever follows the first chain terminator has no part in the
    result: the text is cut there and the blocks are those of the text up
    to the terminator. *)
Theorem text_after_chain_end_irrelevant (head rest : str) :
  truncate (head ++ CHAIN_END ++ rest) = truncate (head ++ CHAIN_END) /\
  extract_certificates (head ++ CHAIN_END ++ rest)
  = extract_certificates (head ++ CHAIN_END) /\
  (first_at_end CHAIN_END head ->
   truncate (head ++ CHAIN_END ++ rest) = head).
Proof.
  assert (Hcut : truncate (head ++ CHAIN_END ++ rest)
                 = truncate (head ++ CHAIN_END)).
  { apply (truncated_unique CHAIN_END (head ++ CHAIN_END)).
    - apply (truncated_shorter CHAIN_END head rest). apply truncate_first.
    - apply truncate_first. }
  split; [exact Hcut|]. split.
  - unfold extract_certificates. rewrite Hcut. reflexivity.
  - intros Hfirst. rewrite Hcut.
    apply (truncated_unique CHAIN_END (head ++ CHAIN_END));
      [apply truncate_first|].
    split; [exact Hfirst|]. right. exists []. rewrite app_nil_r. reflexivity.
Qed.

Lemma match_lazy_first (re : Re.regex) (k : nat) :
  forall s m,
    k <= length s ->
    Re.match_here re (drop k s) = Some m ->
    (forall j, j < k -> Re.match_here re (drop j s) = None) ->
    Re.match_here (Re.AnyLazy :: re) s = Some (k + m).
Proof.
  induction k as [|k IH]; intros s m Hk Hm Hmin; rewrite match_lazy_unfold.
  - rewrite drop_0 in Hm. rewrite Hm. reflexivity.
  - pose proof (Hmin 0 ltac:(lia)) as H0. rewrite drop_0 in H0. rewrite H0.
    destruct s as [|c s]; [simpl in Hk; lia|].
    rewrite (IH s m); [reflexivity | simpl in Hk; lia | exact Hm |].
    intros j Hj. apply (Hmin (S j)). lia.
Qed.

Lemma sub_keeps_unmatched_prefix (re : Re.regex) (a x : str) :
  (forall i, i < length a -> Re.match_here re (drop i (a ++ x)) = None) ->
  Re.sub_from re 0 (a ++ x) = a ++ Re.sub_from re 0 x.
Proof.
  induction a as [|c a IH]; intros Hnone; [reflexivity|].
  pose proof (Hnone 0 ltac:(simpl; lia)) as H0. rewrite drop_0 in H0.
  simpl in H0 |- *. rewrite H0. f_equal.
  apply IH. intros i Hi. apply (Hnone (S i)). simpl. lia.
Qed.

Lemma comment_starts_with_open (s : str) :
  Str.startswith COMMENT_OPEN s = false ->
  Re.match_here COMMENT_RE s = None.
Proof. intros H. unfold COMMENT_RE. simpl in *. rewrite H. reflexivity. Qed.

(** A comment whose opener is the first in the text and whose closer is
    the first after the opener is removed whole, and the text before it
    is kept as it is; if no opener follows, so is the text after it. *)
Theorem comment_removed_whole (before body after : str) :
  first_at_end COMMENT_OPEN before ->
  first_at_end COMMENT_CLOSE body ->
  strip_comments (before ++ COMMENT_OPEN ++ body ++ COMMENT_CLOSE ++ after)
  = before ++ strip_comments after /\
  ((forall i, ~ Str.occurs_at COMMENT_OPEN after i) ->
   strip_comments (before ++ COMMENT_OPEN ++ body ++ COMMENT_CLOSE ++ after)
   = before ++ after).
Proof.
  intros Hopen Hclose.
  assert (Hmatch :
    Re.match_here COMMENT_RE (COMMENT_OPEN ++ body ++ COMMENT_CLOSE ++ after)
    = Some (length COMMENT_OPEN + (length body + (length COMMENT_CLOSE + 0)))).
  { unfold COMMENT_RE. apply match_lit. eexists _, _.
    split; [reflexivity|]. split; [|reflexivity].
    apply match_lazy_first.
    - rewrite length_app. lia.
    - rewrite drop_app_length, match_end_lit.
      change (lit "-->") with COMMENT_CLOSE.
      rewrite startswith_self_app. reflexivity.
    - intros j Hj. rewrite match_end_lit.
      change (lit "-->") with COMMENT_CLOSE.
      destruct (Str.startswith COMMENT_CLOSE
                  (drop j (body ++ COMMENT_CLOSE ++ after))) eqn:E;
        [|reflexivity].
      destruct (Hclose j Hj). unfold Str.occurs_at.
      rewrite <- E. symmetry. rewrite (app_assoc body).
      apply startswith_drop_app. rewrite length_app.
      change (length COMMENT_CLOSE) with 3. lia. }
  assert (Hstrip :
    strip_comments (before ++ COMMENT_OPEN ++ body ++ COMMENT_CLOSE ++ after)
    = before ++ strip_comments after).
  { unfold strip_comments, Re.sub_empty.
    rewrite sub_keeps_unmatched_prefix.
    - f_equal.
      change (COMMENT_OPEN ++ body ++ COMMENT_CLOSE ++ after)
        with ("<"%char :: (lit "!--" ++ body ++ COMMENT_CLOSE ++ after))
        in Hmatch |- *.
      cbn [Re.sub_from]. rewrite Hmatch.
      change (length COMMENT_OPEN) with 4. cbn [Nat.add].
      rewrite sub_from_skip. f_equal.
      replace (lit "!--" ++ body ++ COMMENT_CLOSE ++ after)
        with ((lit "!--" ++ body ++ COMMENT_CLOSE) ++ after)
        by (rewrite <- !app_assoc; reflexivity).
      apply drop_app_length'. rewrite !length_app. simpl. lia.
    - intros i Hi. apply comment_starts_with_open.
      destruct (Str.startswith COMMENT_OPEN
                  (drop i (before ++ COMMENT_OPEN ++ body ++ COMMENT_CLOSE
                           ++ after))) eqn:E; [|reflexivity].
      destruct (Hopen i Hi). unfold Str.occurs_at.
      rewrite <- E. symmetry. rewrite (app_assoc before).
      apply startswith_drop_app. rewrite length_app.
      change (length COMMENT_OPEN) with 4. lia. }
  split; [exact Hstrip|].
  intros Hnone. rewrite Hstrip. f_equal.
  unfold strip_comments, Re.sub_empty.
  rewrite <- (app_nil_r after) at 1.
  rewrite sub_keeps_unmatched_prefix; [apply app_nil_r|].
  intros i _. apply comment_starts_with_open.
  rewrite app_nil_r.
  destruct (Str.startswith COMMENT_OPEN (drop i after)) eqn:E; [|reflexivity].
  destruct (Hnone i E).
Qed.

Lemma comment_removed_whole_witness :
  strip_comments
    (lit "<a>" ++ COMMENT_OPEN ++ pem "AAAA" ++ COMMENT_CLOSE ++ pem "BBBB")
  = lit "<a>" ++ pem "BBBB".
Proof.
  assert (Hopen : first_at_end COMMENT_OPEN (lit "<a>")).
  { intros i Hi. do 3 (destruct i as [|i]; [discriminate|]).
    simpl in Hi. lia. }
  assert (Hclose : first_at_end COMMENT_CLOSE (pem "AAAA")).
  { intros i Hi. unfold Str.occurs_at.
    change (length (pem "AAAA")) with 58 in Hi.
    do 58 (destruct i as [|i]; [discriminate|]). lia. }
  apply (proj2 (comment_removed_whole (lit "<a>") (pem "AAAA") (pem "BBBB")
                  Hopen Hclose)).
  intros i. unfold Str.occurs_at.
  destruct (Nat.lt_ge_cases i (length (pem "BBBB"))) as [Hi|Hi].
  - change (length (pem "BBBB")) with 58 in Hi.
    do 58 (destruct i as [|i]; [discriminate|]). lia.
  - rewrite drop_ge by exact Hi. discriminate.
Defined.

(** ** A chain of well-formed blocks *)

Lemma none_before_spec (marker s : str) (n : nat) :
  none_before marker s n = true ->
  forall i, i < n -> ~ Str.occurs_at marker s i.
Proof.
  induction n as [|n IH]; intros Hn i Hi; [lia|].
  simpl in Hn. apply andb_true_iff in Hn as [Hhere Hbelow].
  destruct (decide (i = n)) as [->|Hne].
  - unfold Str.occurs_at. intros Hocc. rewrite Hocc in Hhere. discriminate.
  - apply IH; [exact Hbelow | lia].
Qed.

Lemma none_before_everywhere (marker s : str) :
  marker <> [] ->
  none_before marker s (length s) = true ->
  forall i, ~ Str.occurs_at marker s i.
Proof.
  intros Hm Hn i.
  destruct (Nat.lt_ge_cases i (length s)) as [Hi|Hi].
  - apply (none_before_spec _ _ _ Hn). exact Hi.
  - unfold Str.occurs_at. rewrite drop_ge by exact Hi.
    destruct marker; [congruence | discriminate].
Qed.

Lemma truncate_at_first_end (head rest : str) :
  first_at_end CHAIN_END head -> truncate (head ++ CHAIN_END ++ rest) = head.
Proof.
  intros Hfirst.
  apply (truncated_unique CHAIN_END (head ++ CHAIN_END)).
  - apply (truncated_shorter CHAIN_END head rest). apply truncate_first.
  - split; [exact Hfirst|]. right. exists []. rewrite app_nil_r. reflexivity.
Qed.

Lemma strip_comments_no_opener (s : str) :
  (forall i, ~ Str.occurs_at COMMENT_OPEN s i) -> strip_comments s = s.
Proof.
  intros Hnone. unfold strip_comments, Re.sub_empty.
  rewrite <- (app_nil_r s) at 1.
  rewrite sub_keeps_unmatched_prefix; [apply app_nil_r|].
  intros i _. apply comment_starts_with_open. rewrite app_nil_r.
  destruct (Str.startswith COMMENT_OPEN (drop i s)) eqn:E; [|reflexivity].
  destruct (Hnone i E).
Qed.

Lemma findall_skips_unmatched_prefix (re : Re.regex) (a x : str) :
  (forall i, i < length a -> Re.match_here re (drop i (a ++ x)) = None) ->
  Re.findall_from re 0 (a ++ x) = Re.findall_from re 0 x.
Proof.
  induction a as [|c a IH]; intros Hnone; [reflexivity|].
  pose proof (Hnone 0 ltac:(simpl; lia)) as H0. rewrite drop_0 in H0.
  simpl in H0 |- *. rewrite H0.
  apply IH. intros i Hi. apply (Hnone (S i)). simpl. lia.
Qed.

(** Inside a stretch without dashes nothing that begins with a dash
    starts. *)
Lemma dash_free_no_start (marker x y : str) (i : nat) :
  dash_free x -> i < length x ->
  Str.startswith ("-"%char :: marker) (drop i (x ++ y)) = false.
Proof.
  intros Hx. revert i. induction Hx as [|c x Hc _ IH]; intros i Hi.
  - simpl in Hi. lia.
  - destruct i as [|i].
    + change (Str.eqb_char "-" c && Str.startswith marker (x ++ y) = false).
      destruct (Str.eqb_char "-" c) eqn:E; [|reflexivity].
      apply eqb_char_eq in E. congruence.
    + simpl in Hi. change (drop (S i) ((c :: x) ++ y)) with (drop i (x ++ y)).
      apply IH. lia.
Qed.

Lemma dash_free_app (x y : str) :
  dash_free x -> dash_free y -> dash_free (x ++ y).
Proof. intros Hx Hy. apply Forall_app. split; assumption. Qed.

Lemma cert_needs_dash (s : str) :
  Str.startswith BEGIN_CERT s = false -> Re.match_here CERT_RE s = None.
Proof. intros H. unfold CERT_RE. simpl in *. rewrite H. reflexivity. Qed.

(** The certificate pattern matches a well-formed block as a whole. *)
Lemma pem_block_matched (body rest : str) :
  dash_free body ->
  Re.match_here CERT_RE (pem_block body ++ rest)
  = Some (length (pem_block body)).
Proof.
  intros Hbody. unfold CERT_RE, pem_block.
  set (inner := newline ++ body ++ newline).
  assert (Hinner : dash_free inner).
  { subst inner. apply dash_free_app; [repeat constructor; discriminate|].
    apply dash_free_app; [exact Hbody | repeat constructor; discriminate]. }
  replace ((BEGIN_CERT ++ DASHES ++ newline ++ body ++ newline ++ END_CERT
            ++ DASHES) ++ rest)
    with (BEGIN_CERT ++ DASHES ++ inner ++ END_CERT ++ DASHES ++ rest)
    by (subst inner; rewrite <- !app_assoc; reflexivity).
  replace (length (BEGIN_CERT ++ DASHES ++ newline ++ body ++ newline
                   ++ END_CERT ++ DASHES))
    with (length BEGIN_CERT
          + ((length DASHES + length inner)
             + (length END_CERT + (0 + (length DASHES + 0)))))
    by (subst inner; rewrite !length_app; lia).
  apply match_lit. eexists _, _. split; [reflexivity|].
  split; [|reflexivity].
  apply match_lazy_first.
  - rewrite !length_app. lia.
  - replace (DASHES ++ inner ++ END_CERT ++ DASHES ++ rest)
      with ((DASHES ++ inner) ++ END_CERT ++ DASHES ++ rest)
      by (rewrite <- !app_assoc; reflexivity).
    rewrite drop_app_length'; [|rewrite length_app; reflexivity].
    apply match_lit. eexists _, _. split; [reflexivity|].
    split; [|reflexivity].
    apply match_lazy_first; [lia | | intros j Hj; lia].
    rewrite drop_0, match_end_lit, startswith_self_app. reflexivity.
  - intros j Hj.
    assert (Hno : Str.startswith END_CERT
                    (drop j (DASHES ++ inner ++ END_CERT ++ DASHES ++ rest))
                  = false).
    { destruct (Nat.lt_ge_cases j (length DASHES)) as [Hlt|Hge].
      - subst inner. change (length DASHES) with 5 in Hlt.
        do 5 (destruct j as [|j]; [reflexivity|]). lia.
      - rewrite drop_app_ge by exact Hge.
        apply (dash_free_no_start (lit "----END CERTIFICATE"));
          [exact Hinner | lia]. }
    simpl. simpl in Hno. rewrite Hno. reflexivity.
Qed.

Lemma findall_chain (pieces : list (str * str)) (tail : str) :
  Forall (fun piece : str * str => dash_free piece.1 /\ dash_free piece.2)
    pieces ->
  dash_free tail ->
  Re.findall CERT_RE (chain pieces tail)
  = map (fun piece : str * str => pem_block piece.2) pieces.
Proof.
  intros Hpieces Htail. unfold Re.findall.
  assert (Hgap : forall (gap x : str), dash_free gap ->
            Re.findall_from CERT_RE 0 (gap ++ x)
            = Re.findall_from CERT_RE 0 x).
  { intros gap x Hfree. apply findall_skips_unmatched_prefix.
    intros i Hi. apply cert_needs_dash.
    apply (dash_free_no_start (lit "----BEGIN CERTIFICATE"));
      assumption. }
  induction Hpieces as [|[gap body] pieces [Hg Hb] _ IH].
  - simpl. rewrite <- (app_nil_r tail). rewrite Hgap by exact Htail.
    reflexivity.
  - simpl in Hg, Hb. cbn [chain map snd].
    rewrite Hgap by exact Hg.
    pose proof (pem_block_matched body (chain pieces tail) Hb) as Hmatch.
    assert (Hlen : length (pem_block body)
                   = S (length (pem_block body) - 1))
      by (unfold pem_block; rewrite !length_app; simpl; lia).
    rewrite Hlen in Hmatch.
    assert (Hcons : exists c more, pem_block body = c :: more)
      by (unfold pem_block; simpl; eauto).
    destruct Hcons as (c & more & Hcons).
    rewrite Hcons in Hmatch |- *. cbn [app Re.findall_from].
    change ((c :: more) ++ chain pieces tail)
      with (c :: more ++ chain pieces tail) in Hmatch.
    rewrite Hmatch.
    replace (length (c :: more) - 1) with (length more) by (simpl; lia).
    f_equal.
    + cbn [take]. f_equal. apply take_app_length.
    + rewrite findall_from_skip, drop_app_length. exact IH.
Qed.

(** A chain of well-formed blocks (dashes in their markers only) that
    holds no comment opener and ends at the first chain terminator is
    extracted block by block, in order, whatever follows the terminator. *)
Theorem well_formed_chain_extracted (pieces : list (str * str))
  (tail rest : str) :
  Forall (fun piece : str * str => dash_free piece.1 /\ dash_free piece.2)
    pieces ->
  dash_free tail ->
  (forall i, ~ Str.occurs_at COMMENT_OPEN (chain pieces tail) i) ->
  first_at_end CHAIN_END (chain pieces tail) ->
  extract_certificates (chain pieces tail ++ CHAIN_END ++ rest)
  = map (fun piece : str * str => pem_block piece.2) pieces.
Proof.
  intros Hpieces Htail Hopen Hend. unfold extract_certificates.
  rewrite truncate_at_first_end by exact Hend.
  rewrite strip_comments_no_opener by exact Hopen.
  apply findall_chain; assumption.
Qed.

Lemma well_formed_chain_extracted_witness :
  extract_certificates
    (chain two_certificates (lit "</Certificate>") ++ CHAIN_END
     ++ pem "CCCC")
  = [pem "AAAA"; pem "BBBB"].
Proof.
  apply (well_formed_chain_extracted two_certificates (lit "</Certificate>")
           (pem "CCCC")).
  - repeat constructor; discriminate.
  - repeat constructor; discriminate.
  - apply none_before_everywhere; [discriminate | vm_compute; reflexivity].
  - intros i Hi.
    apply (none_before_spec CHAIN_END _
             (length (chain two_certificates (lit "</Certificate>"))));
      [vm_compute; reflexivity | exact Hi].
Defined.

(** ** The feed and the keys together *)

(** A feed that decodes to an object without an [entries] key gives an
    empty table and prints no error. *)
Theorem missing_entries_key_empty_table (status_code : nat)
  (data : list (str * JValue)) :
  raise_for_status status_code = false ->
  Forall (fun kv : str * JValue => kv.1 <> lit "entries") data ->
  get_online_serial_list (Response status_code (Some (JObject data)))
  = (∅, []).
Proof.
  intros Hcode Hmissing.
  unfold get_online_serial_list, download_entries. rewrite Hcode.
  assert (Hget : dict_get (lit "entries") (JObject []) data = JObject []).
  { unfold dict_get.
    induction Hmissing as [|[k v] data Hk _ IH]; [reflexivity|].
    cbn [fst] in Hk. cbn [find fst].
    destruct (Str.eqb k (lit "entries")) eqn:E; [|exact IH].
    apply str_eqb_eq in E. contradiction. }
  rewrite Hget. reflexivity.
Qed.

Lemma missing_entries_key_empty_table_witness :
  get_online_serial_list (Response 200 (Some feed_without_entries))
  = (∅, []).
Proof.
  apply (missing_entries_key_empty_table 200 [(lit "version", JNumber 3)]).
  - reflexivity.
  - repeat constructor. discriminate.
Defined.

Lemma last_info_elem (key : str) (items : list (str * JValue))
  (v : JValue) :
  last_info key items = Some v ->
  exists serial, (serial, v) ∈ items /\ Str.lower serial = key.
Proof.
  induction items as [|[s w] items IH]; simpl; [discriminate|].
  destruct (last_info key items) as [later|].
  - intros [= <-]. destruct (IH eq_refl) as (serial & Hin & Hkey).
    exists serial. split; [right; exact Hin | exact Hkey].
  - destruct (decide (Str.lower s = key)) as [Hkey|]; [|discriminate].
    intros [= <-]. exists s. split; [left | exact Hkey].
Qed.

Lemma last_info_some (items : list (str * JValue)) (serial : str)
  (v : JValue) :
  (serial, v) ∈ items -> is_Some (last_info (Str.lower serial) items).
Proof.
  induction items as [|[s w] items IH]; intros Hin; [inversion Hin|].
  simpl. destruct (last_info (Str.lower serial) items) as [later|] eqn:E;
    [eauto|].
  apply elem_of_cons in Hin as [[= <- <-]|Hin].
  - rewrite decide_True by reflexivity. eauto.
  - destruct (IH Hin) as [? [=]].
Qed.

(** A certificate whose subject key equals a serial of the feed up to
    the case of its letters is found, when every entry of the feed is an
    object. *)
Theorem published_serial_found_in_any_case (reply : Reply)
  (items : list (str * JValue)) (serial : str) (info : list (str * JValue))
  (cert : Certificate) :
  feed_with reply items ->
  Forall (fun item => is_object item.2 = true) items ->
  (serial, JObject info) ∈ items ->
  Str.lower serial = subject_serial_hex cert ->
  found (evaluate cert (get_online_serial_list reply).1) = true /\
  is_Some (status_info (evaluate cert (get_online_serial_list reply).1)).
Proof.
  intros (code & data & -> & Hcode & Hentries) Hobjects Hin Hkey.
  unfold get_online_serial_list, download_entries.
  rewrite Hcode, Hentries.
  destruct (proj2 (add_entries_objects items ∅) Hobjects) as [table Htable].
  rewrite Htable. cbn [fst].
  assert (Hhit : is_Some (table !! subject_serial_hex cert)).
  { rewrite (add_entries_lookup _ _ _ _ Htable), <- Hkey.
    destruct (last_info_some items serial _ Hin) as [v' Hlast].
    rewrite Hlast.
    destruct (last_info_elem _ _ _ Hlast) as (s' & Hv' & _).
    rewrite Forall_forall in Hobjects. specialize (Hobjects _ Hv').
    destruct v'; try discriminate. eauto. }
  destruct Hhit as [entry Hentry].
  unfold evaluate, lookup_status, bind, query, ret. simpl.
  rewrite Hentry. simpl. split; [reflexivity | eauto].
Qed.

Lemma published_serial_found_in_any_case_witness :
  found (evaluate cert_1a2b
           (get_online_serial_list (Response 200 (Some sample_json))).1)
  = true.
Proof.
  refine (proj1 (published_serial_found_in_any_case
                   (Response 200 (Some sample_json))
                   [(lit "1A2B",
                     JObject [(lit "status", JString (lit "REVOKED"));
                              (lit "reason", JString (lit "KEY_COMPROMISE"))])]
                   (lit "1A2B")
                   [(lit "status", JString (lit "REVOKED"));
                    (lit "reason", JString (lit "KEY_COMPROMISE"))]
                   cert_1a2b _ _ _ _)).
  - exists 200, [(lit "entries",
                  JObject
                    [(lit "1A2B",
                      JObject
                        [(lit "status", JString (lit "REVOKED"));
                         (lit "reason", JString (lit "KEY_COMPROMISE"))])])].
    repeat split.
  - repeat constructor.
  - left.
  - reflexivity.
Defined.

Lemma drop_while_head_false (p : ascii -> bool) (s : str) (c : ascii)
  (rest : str) :
  Str.drop_while p s = c :: rest -> p c = false.
Proof.
  induction s as [|x s IH]; simpl; [discriminate|].
  destruct (p x) eqn:Hx; [exact IH|]. intros [= <- _]. exact Hx.
Qed.

Lemma drop_while_fixed (f : ascii -> ascii) (p : ascii -> bool) (s : str) :
  map f s = s -> map f (Str.drop_while p s) = Str.drop_while p s.
Proof.
  induction s as [|x s IH]; simpl; [reflexivity|].
  intros [= Hx Hs]. destruct (p x); [apply IH; exact Hs|].
  simpl. rewrite Hx, Hs. reflexivity.
Qed.

(** The subject key is in the form of the table's keys, lowercase, and it
    never begins with the digit 0: an entry published under a serial with
    leading zeros is not reached through the subject serial. *)
Theorem subject_key_normal_form (cert : Certificate) :
  Str.lower (subject_serial_hex cert) = subject_serial_hex cert /\
  forall rest, subject_serial_hex cert <> "0"%char :: rest.
Proof.
  unfold subject_serial_hex, Str.lstrip. split.
  - apply drop_while_fixed. apply lower_idempotent.
  - intros rest Hzero. apply drop_while_head_false in Hzero. discriminate.
Qed.

(** ** The extraction in terms of the markers *)

Lemma occurs_at_drop (marker s : str) (i j : nat) :
  Str.occurs_at marker (drop i s) j <-> Str.occurs_at marker s (i + j).
Proof. unfold Str.occurs_at. rewrite drop_drop. reflexivity. Qed.

Lemma occurs_at_middle (marker a x : str) :
  Str.occurs_at marker (a ++ marker ++ x) (length a).
Proof.
  unfold Str.occurs_at. rewrite drop_app_length. apply startswith_self_app.
Qed.

(** Where a comment starts, the comment pattern matches. *)
Lemma comment_at_matches (s : str) (i : nat) :
  comment_at s i -> Re.match_here COMMENT_RE (drop i s) <> None.
Proof.
  intros [Hopen (j & Hj & Hclose)] Hnone.
  unfold Str.occurs_at in Hopen. apply startswith_app in Hopen as [r Hr].
  unfold COMMENT_RE in Hnone. change (lit "<!--") with COMMENT_OPEN in Hnone.
  pose proof (match_lit_none _ _ _ _ Hnone Hr) as Hlazy.
  pose proof (match_lazy_complete _ _ (j - (i + length COMMENT_OPEN)) Hlazy)
    as Hlit.
  assert (Er : r = drop (length COMMENT_OPEN) (drop i s))
    by (rewrite Hr, drop_app_length; reflexivity).
  rewrite Er, !drop_drop in Hlit.
  replace (i + (length COMMENT_OPEN + (j - (i + length COMMENT_OPEN))))
    with j in Hlit by lia.
  rewrite match_end_lit in Hlit. change (lit "-->") with COMMENT_CLOSE in Hlit.
  unfold Str.occurs_at in Hclose. rewrite Hclose in Hlit. discriminate.
Qed.

(** Where a certificate block starts, the certificate pattern matches. *)
Lemma certificate_at_matches (s : str) (i : nat) :
  certificate_at s i -> Re.match_here CERT_RE (drop i s) <> None.
Proof.
  intros [Hbegin (j & k & Hj & Hend & Hk & Hdash)] Hnone.
  unfold Str.occurs_at in Hbegin. apply startswith_app in Hbegin as [r Hr].
  unfold CERT_RE in Hnone.
  pose proof (match_lit_none _ _ _ _ Hnone Hr) as Hlazy.
  pose proof (match_lazy_complete _ _ (j - (i + length BEGIN_CERT)) Hlazy)
    as Hlit.
  assert (Er : r = drop (length BEGIN_CERT) (drop i s))
    by (rewrite Hr, drop_app_length; reflexivity).
  rewrite Er, !drop_drop in Hlit.
  replace (i + (length BEGIN_CERT + (j - (i + length BEGIN_CERT))))
    with j in Hlit by lia.
  unfold Str.occurs_at in Hend. apply startswith_app in Hend as [r1 Hr1].
  pose proof (match_lit_none _ _ _ _ Hlit Hr1) as Hlazy1.
  pose proof (match_lazy_complete _ _ (k - (j + length END_CERT)) Hlazy1)
    as Hlit1.
  assert (Er1 : r1 = drop (length END_CERT) (drop j s))
    by (rewrite Hr1, drop_app_length; reflexivity).
  rewrite Er1, !drop_drop in Hlit1.
  replace (j + (length END_CERT + (k - (j + length END_CERT))))
    with k in Hlit1 by lia.
  rewrite match_end_lit in Hlit1.
  unfold Str.occurs_at in Hdash. rewrite Hdash in Hlit1. discriminate.
Qed.

(** A match of the comment pattern is a comment closed at its first
    closer. *)
Lemma comment_match_shape (m rest : str) :
  Re.match_here COMMENT_RE (m ++ rest) = Some (length m) ->
  exists body,
    m = COMMENT_OPEN ++ body ++ COMMENT_CLOSE /\
    first_at_end COMMENT_CLOSE body.
Proof.
  unfold COMMENT_RE. change (lit "<!--") with COMMENT_OPEN.
  change (lit "-->") with COMMENT_CLOSE. intros H.
  apply match_lit in H as (r0 & n & Hs & H & Hlen).
  apply match_lazy_sound in H as (k & n' & -> & Hk & H & Hmin).
  rewrite match_end_lit in H.
  destruct (Str.startswith COMMENT_CLOSE (drop k r0)) eqn:Hc; [|discriminate].
  injection H as <-. apply startswith_app in Hc as [r2 Hr2].
  assert (E0 : r0 = (take k r0 ++ COMMENT_CLOSE) ++ r2).
  { rewrite <- (take_drop k r0) at 1. rewrite Hr2, app_assoc. reflexivity. }
  exists (take k r0). split.
  - assert (E : m ++ rest
                = (COMMENT_OPEN ++ take k r0 ++ COMMENT_CLOSE) ++ r2).
    { rewrite Hs. rewrite E0 at 1. rewrite <- !app_assoc. reflexivity. }
    rewrite <- (take_app_length m rest), E. apply take_app_length'.
    rewrite Hlen, !length_app, length_take_le by lia.
    change (length COMMENT_CLOSE) with 3. lia.
  - intros i Hi Hocc. rewrite length_take_le in Hi by lia.
    specialize (Hmin i Hi). rewrite match_end_lit in Hmin.
    unfold Str.occurs_at in Hocc.
    rewrite E0, startswith_drop_app, Hocc in Hmin; [discriminate|].
    rewrite length_app, length_take_le by lia. lia.
Qed.

Lemma comment_starts_in_text (gap body rest : str) :
  comment_at (gap ++ COMMENT_OPEN ++ body ++ COMMENT_CLOSE ++ rest)
    (length gap).
Proof.
  split; [apply occurs_at_middle|].
  exists (length gap + length COMMENT_OPEN + length body). split; [lia|].
  replace (gap ++ COMMENT_OPEN ++ body ++ COMMENT_CLOSE ++ rest)
    with ((gap ++ COMMENT_OPEN ++ body) ++ COMMENT_CLOSE ++ rest)
    by (rewrite <- !app_assoc; reflexivity).
  replace (length gap + length COMMENT_OPEN + length body)
    with (length (gap ++ COMMENT_OPEN ++ body))
    by (rewrite !length_app; lia).
  apply occurs_at_middle.
Qed.

Lemma block_starts_in_text (gap mid tail rest : str) :
  certificate_at (gap ++ block_of mid tail ++ rest) (length gap).
Proof.
  unfold block_of. split.
  - rewrite <- !app_assoc. apply occurs_at_middle.
  - exists (length (gap ++ BEGIN_CERT ++ mid)),
           (length ((gap ++ BEGIN_CERT ++ mid) ++ END_CERT ++ tail)).
    split; [rewrite !length_app; lia|]. split; [|split].
    + replace (gap ++ (BEGIN_CERT ++ mid ++ END_CERT ++ tail ++ DASHES)
               ++ rest)
        with ((gap ++ BEGIN_CERT ++ mid) ++ END_CERT
              ++ (tail ++ DASHES ++ rest))
        by (rewrite <- !app_assoc; reflexivity).
      apply occurs_at_middle.
    + rewrite !length_app. lia.
    + replace (gap ++ (BEGIN_CERT ++ mid ++ END_CERT ++ tail ++ DASHES)
               ++ rest)
        with (((gap ++ BEGIN_CERT ++ mid) ++ END_CERT ++ tail) ++ DASHES
              ++ rest)
        by (rewrite <- !app_assoc; reflexivity).
      apply occurs_at_middle.
Qed.

Lemma scanned_comments_removed pieces tail (s : str) :
  scanned COMMENT_RE pieces tail s ->
  comments_removed s (flat_map fst pieces ++ tail).
Proof.
  induction 1 as [s Hnone | gap m pieces tail s Hgap _ Hmatch _ IH].
  - simpl. apply comments_none. intros i Hc.
    apply (comment_at_matches s i Hc). apply Hnone.
  - apply comment_match_shape in Hmatch as (body & -> & Hfirst).
    cbn [flat_map fst]. rewrite <- !app_assoc in *.
    apply comments_one; [|exact Hfirst | exact IH].
    intros i Hi Hc. apply (comment_at_matches _ i Hc). apply Hgap. exact Hi.
Qed.

Lemma scanned_blocks_in pieces tail (s : str) :
  scanned CERT_RE pieces tail s -> blocks_in s pieces.*2.
Proof.
  induction 1 as [s Hnone | gap m pieces tail s Hgap _ Hmatch _ IH].
  - apply blocks_none. intros i Hc.
    apply (certificate_at_matches s i Hc). apply Hnone.
  - apply cert_match_bounded in Hmatch. rewrite take_app_length in Hmatch.
    destruct Hmatch as (mid & tl & -> & Hend & Hdash).
    change (BEGIN_CERT ++ mid ++ END_CERT ++ tl ++ DASHES)
      with (block_of mid tl) in *.
    cbn [fmap list_fmap snd]. apply blocks_one; auto.
    intros i Hi Hc. apply (certificate_at_matches _ i Hc). apply Hgap.
    exact Hi.
Qed.

Lemma first_marker_unique (marker a1 x1 a2 x2 : str) :
  first_at_end marker a1 ->
  first_at_end marker a2 ->
  a1 ++ marker ++ x1 = a2 ++ marker ++ x2 ->
  a1 = a2 /\ x1 = x2.
Proof.
  intros H1 H2 E.
  assert (Hshort : forall b c y z,
            first_at_end marker c -> b ++ marker ++ y = c ++ marker ++ z ->
            ~ length b < length c).
  { intros b c y z Hc Eq Hlt. apply (Hc (length b) Hlt).
    apply (occurs_at_app_l marker (c ++ marker) z).
    - rewrite length_app. lia.
    - rewrite <- app_assoc, <- Eq. apply occurs_at_middle. }
  assert (Hlen : length a1 = length a2).
  { destruct (Nat.lt_trichotomy (length a1) (length a2)) as [H|[H|H]];
      [destruct (Hshort _ _ _ _ H2 E H) | exact H
      | destruct (Hshort _ _ _ _ H1 (eq_sym E) H)]. }
  apply app_inj_1 in E as [-> E]; [|exact Hlen].
  apply app_inv_head in E. auto.
Qed.

(** The blocks of a text are determined by its markers. *)
Lemma blocks_in_unique (s : str) (l1 : list str) :
  blocks_in s l1 -> forall s' l2, blocks_in s' l2 -> s = s' -> l1 = l2.
Proof.
  induction 1 as [s Hnone | gap mid tail rest blocks Hgap Hend Hdash _ IH];
    intros s' l2 H2 E;
    destruct H2 as [s2 Hnone2 | gap2 mid2 tail2 rest2 blocks2 Hgap2 Hend2
                                 Hdash2 Hrest2].
  - reflexivity.
  - subst s. destruct (Hnone _ (block_starts_in_text gap2 mid2 tail2 rest2)).
  - subst s2. destruct (Hnone2 _ (block_starts_in_text gap mid tail rest)).
  - assert (Hlen : length gap = length gap2).
    { destruct (Nat.lt_trichotomy (length gap) (length gap2)) as [H|[H|H]];
        [|exact H|].
      - destruct (Hgap2 _ H). rewrite <- E. apply block_starts_in_text.
      - destruct (Hgap _ H). rewrite E. apply block_starts_in_text. }
    apply app_inj_1 in E as [-> E]; [|exact Hlen].
    unfold block_of in E. rewrite <- !app_assoc in E.
    apply app_inv_head in E.
    apply first_marker_unique in E as [-> E]; [|exact Hend | exact Hend2].
    apply first_marker_unique in E as [-> E]; [|exact Hdash | exact Hdash2].
    f_equal. apply (IH _ _ Hrest2 E).
Qed.

(** So is the text left once the comments are removed. *)
Lemma comments_removed_unique (s out1 : str) :
  comments_removed s out1 ->
  forall s' out2, comments_removed s' out2 -> s = s' -> out1 = out2.
Proof.
  induction 1 as [s Hnone | gap body rest out Hgap Hclose _ IH];
    intros s' out2 H2 E;
    destruct H2 as [s2 Hnone2 | gap2 body2 rest2 o2 Hgap2 Hclose2 Hrest2].
  - exact E.
  - subst s. destruct (Hnone _ (comment_starts_in_text gap2 body2 rest2)).
  - subst s2. destruct (Hnone2 _ (comment_starts_in_text gap body rest)).
  - assert (Hlen : length gap = length gap2).
    { destruct (Nat.lt_trichotomy (length gap) (length gap2)) as [H|[H|H]];
        [|exact H|].
      - destruct (Hgap2 _ H). rewrite <- E. apply comment_starts_in_text.
      - destruct (Hgap _ H). rewrite E. apply comment_starts_in_text. }
    apply app_inj_1 in E as [-> E]; [|exact Hlen].
    apply app_inv_head in E.
    apply first_marker_unique in E as [-> E]; [|exact Hclose | exact Hclose2].
    f_equal. apply (IH _ _ Hrest2 E).
Qed.

(** C8, as the script has it: the text is cut at the first chain
    terminator (or kept whole when there is none); the comments removed
    are, from the left, each opener that has a closer after it up to the
    first such closer; the blocks returned are, from the left and in
    order, each BEGIN marker that has [-----END CERTIFICATE] and then five
    dashes after it, up to the first [-----END CERTIFICATE] after the marker
    and the first five dashes after that.  The markers leave no other
    choice of cut, cleaned text or blocks, and a block holds
    [-----END CERTIFICATE] once, so that two complete certificates are never
    in one block. *)
Theorem extract_certificates_by_markers (raw : str) :
  let cut := truncate raw in
  let clean := strip_comments cut in
  truncated_at_first CHAIN_END raw cut /\
  comments_removed cut clean /\
  blocks_in clean (extract_certificates raw) /\
  (forall cut', truncated_at_first CHAIN_END raw cut' -> cut' = cut) /\
  (forall clean', comments_removed cut clean' -> clean' = clean) /\
  (forall blocks, blocks_in clean blocks ->
     blocks = extract_certificates raw) /\
  Forall single_end_marker (extract_certificates raw).
Proof.
  intros cut clean.
  destruct (scan_exists COMMENT_RE comment_re_not_empty cut)
    as (comments & rest & Hc & _ & Hsub).
  destruct (scan_exists CERT_RE cert_re_not_empty clean)
    as (blocks & tail & Hb & Hfind & _).
  assert (Hclean : comments_removed cut clean).
  { unfold clean, strip_comments. rewrite Hsub.
    apply scanned_comments_removed. exact Hc. }
  assert (Hblocks : blocks_in clean (extract_certificates raw)).
  { unfold extract_certificates. fold cut. fold clean. rewrite Hfind.
    apply scanned_blocks_in with (tail := tail). exact Hb. }
  split; [apply truncate_first|].
  split; [exact Hclean|]. split; [exact Hblocks|].
  split; [|split; [|split]].
  - intros cut' Hcut'.
    apply (truncated_unique CHAIN_END raw);
      [exact Hcut' | apply truncate_first].
  - intros clean' Hclean'.
    apply (comments_removed_unique _ _ Hclean' _ _ Hclean eq_refl).
  - intros blocks' Hblocks'.
    apply (blocks_in_unique _ _ Hblocks' _ _ Hblocks eq_refl).
  - unfold extract_certificates. fold cut. fold clean. rewrite Hfind.
    eapply Forall_impl; [apply (scanned_matches _ _ _ _ Hb)|].
    intros b [s Hmatch]. simpl. apply bounded_single_end.
    apply cert_match_bounded in Hmatch.
    rewrite take_app_length in Hmatch. exact Hmatch.
Qed.

Lemma ends_with_marker_line (b body : str) :
  b = BEGIN_CERT ++ body ++ END_CERT ++ DASHES ->
  take 6 (rev b) = lit "-----E".
Proof.
  intros ->. rewrite !rev_app_distr, <- !app_assoc. reflexivity.
Qed.

(** C8 as stated, on two texts.  When an END line lacks its closing
    dashes, the block closes with the five dashes of the next BEGIN marker,
    not with an END marker line, and the certificate after it is not
    returned.  When a certificate has no END line, the one block returned
    runs from its BEGIN marker over the BEGIN marker of the next
    certificate to the END line of that one. *)
Lemma blocks_not_bounded_by_own_marker :
  extract_certificates unclosed_end_line
  = [BEGIN_CERT ++ DASHES ++ newline ++ lit "AAAA" ++ newline ++ END_CERT
     ++ newline ++ DASHES] /\
  ~ Forall ends_at_own_marker (extract_certificates unclosed_end_line) /\
  extract_certificates unterminated_then_complete
  = [unterminated_then_complete] /\
  ~ Forall ends_at_own_marker
      (extract_certificates unterminated_then_complete).
Proof.
  assert (E1 : extract_certificates unclosed_end_line
               = [BEGIN_CERT ++ DASHES ++ newline ++ lit "AAAA" ++ newline
                  ++ END_CERT ++ newline ++ DASHES])
    by (vm_compute; reflexivity).
  assert (E2 : extract_certificates unterminated_then_complete
               = [unterminated_then_complete])
    by (vm_compute; reflexivity).
  split; [exact E1|]. split; [|split; [exact E2|]].
  - rewrite E1. intros Hall. apply Forall_cons in Hall as [[[body Hb] _] _].
    apply ends_with_marker_line in Hb. vm_compute in Hb. discriminate.
  - rewrite E2. intros Hall. apply Forall_cons in Hall as [[_ Hone] _].
    apply (Hone 33); [lia | reflexivity].
Qed.

(** ** Runs that end in an exception *)



